(** * neat-python: the generational reproduction scheme

    A shallow embedding of [neat/reproduction.py] (class
    [DefaultReproduction]) and the properties of its specification.

    - Python floats are reached through the interface [PyFloat]; it has an
      exact instance over the rationals and a binary64 instance over the
      primitive floats.
    - Genomes are objects: the model keeps references [G] to them and reads
      their content through the world [W] of the collaborators.
    - [self], the species set and the reporters form the state threaded by the
      monad [M]; a Python exception ends a run with [Raise]. *)

From Stdlib Require Import ZArith QArith Qround Qabs Lia Lqa Floats.
From stdpp Require Import gmap list sorting.

Close Scope Q_scope.
Local Open Scope Z_scope.

(** ** Exceptions and outcomes *)

Inductive exn : Type :=
| ZeroDivisionError
| OverflowError
| ValueError
| IndexError
| TypeError.

(** The result of running a method: a value with the state it leaves, an
    exception with the state at the point of the raise, or a loop that used up
    its budget of iterations. *)
Inductive outcome (S A : Type) : Type :=
| Ok (a : A) (s : S)
| Raise (e : exn) (s : S)
| Timeout.

Arguments Ok {S A} a s.
Arguments Raise {S A} e s.
Arguments Timeout {S A}.

Definition M (S A : Type) : Type := S → outcome S A.

#[global] Instance M_ret {S} : MRet (M S) := λ A a s, Ok a s.

#[global] Instance M_bind {S} : MBind (M S) := λ A B f m s,
  match m s with
  | Ok a s' => f a s'
  | Raise e s' => Raise e s'
  | Timeout => Timeout
  end.

Definition raise {S A} (e : exn) : M S A := λ s, Raise e s.
Definition timeout {S A} : M S A := λ _, Timeout.
Definition get {S} : M S S := λ s, Ok s s.
Definition modify {S} (f : S → S) : M S () := λ s, Ok () (f s).

Definition lift_exn {S A} (r : exn + A) : M S A :=
  match r with inl e => raise e | inr a => mret a end.

(** [for x in l: acc = body acc x] *)
Fixpoint for_each {S A B} (l : list A) (acc : B) (body : B → A → M S B) : M S B :=
  match l with
  | [] => mret acc
  | x :: l' => acc' ← body acc x; for_each l' acc' body
  end.

(** [[f x for x in l]] *)
Fixpoint list_comp {S A B} (f : A → M S B) (l : list A) : M S (list B) :=
  match l with
  | [] => mret []
  | x :: l' => y ← f x; ys ← list_comp f l'; mret (y :: ys)
  end.

(** ** Python floats *)

Class PyFloat (F : Type) : Type := {
  of_int : Z → F;          (* the float of an int operand *)
  lit_0_0 : F;             (* 0.0 *)
  lit_1_1 : F;             (* 1.1 *)
  lit_0_9 : F;             (* 0.9 *)
  fadd : F → F → F;        (* x + y *)
  fmul : F → F → F;        (* x * y *)
  fquot : F → F → F;       (* x / y for y != 0 *)
  fzero : F → bool;        (* x == 0.0 *)
  flt : F → F → bool;      (* x < y *)
  py_round : F → exn + Z;  (* int(round(x)) *)
  py_ceil : F → exn + Z;   (* int(math.ceil(x)) *)
}.

(** [x / n] with [n] an int: ZeroDivisionError when [n] is 0. *)
Definition div_int {S} `{PyFloat F} (x : F) (n : Z) : M S F :=
  if n =? 0 then raise ZeroDivisionError else mret (fquot x (of_int n)).

(** [n / y] with [n] an int: ZeroDivisionError when [y] is 0.0. *)
Definition int_div {S} `{PyFloat F} (n : Z) (y : F) : M S F :=
  if fzero y then raise ZeroDivisionError else mret (fquot (of_int n) y).

(** [sum(l)]: starts from the int 0 and adds from the left. *)
Definition py_sum `{PyFloat F} (l : list F) : F := foldl fadd (of_int 0) l.

(** *** Exact arithmetic *)

(** Rounding of a rational to the nearest integer, ties to the even one. *)
Definition Qround_half_even (x : Q) : Z :=
  let f := Qfloor x in
  match (x - inject_Z f ?= 1 # 2)%Q with
  | Lt => f
  | Gt => f + 1
  | Eq => if Z.even f then f else f + 1
  end.

#[global] Instance Q_float : PyFloat Q := {|
  of_int := inject_Z;
  lit_0_0 := 0%Q;
  lit_1_1 := (11 # 10)%Q;
  lit_0_9 := (9 # 10)%Q;
  fadd := Qplus;
  fmul := Qmult;
  fquot := Qdiv;
  fzero := λ x, Qeq_bool x 0%Q;
  flt := λ x y, negb (Qle_bool y x);
  py_round := λ x, inr (Qround_half_even x);
  py_ceil := λ x, inr (Qceiling x);
|}.

(** *** IEEE 754 binary64 *)

(** The integer nearest to [m * 2^e] for [m >= 0], ties to even. *)
Definition round_scaled (m e : Z) : Z :=
  if 0 <=? e then m * 2 ^ e
  else
    let d := 2 ^ (- e) in
    let q := m / d in
    match 2 * (m mod d) ?= d with
    | Lt => q
    | Gt => q + 1
    | Eq => if Z.even q then q else q + 1
    end.

(** The least integer not below [m * 2^e] for [m >= 0]. *)
Definition ceil_scaled (m e : Z) : Z :=
  if 0 <=? e then m * 2 ^ e
  else
    let d := 2 ^ (- e) in
    if m mod d =? 0 then m / d else m / d + 1.

(** The greatest integer not above [m * 2^e] for [m >= 0]. *)
Definition floor_scaled (m e : Z) : Z :=
  if 0 <=? e then m * 2 ^ e else m / 2 ^ (- e).

Definition float_to_int (pos neg : Z → Z → Z) (x : float) : exn + Z :=
  match Prim2SF x with
  | S754_zero _ => inr 0
  | S754_infinity _ => inl OverflowError
  | S754_nan => inl ValueError
  | S754_finite false m e => inr (pos (Z.pos m) e)
  | S754_finite true m e => inr (- neg (Z.pos m) e)
  end.

#[global] Instance binary64_float : PyFloat float := {|
  of_int := λ z, SF2Prim (binary_normalize prec emax z 0 false);
  lit_0_0 := 0%float;
  lit_1_1 := 0x1.199999999999ap+0%float;
  lit_0_9 := 0x1.ccccccccccccdp-1%float;
  fadd := PrimFloat.add;
  fmul := PrimFloat.mul;
  fquot := PrimFloat.div;
  fzero := λ x, PrimFloat.eqb x 0%float;
  flt := PrimFloat.ltb;
  py_round := float_to_int round_scaled round_scaled;
  py_ceil := float_to_int ceil_scaled floor_scaled;
|}.

(** ** Data model *)

(** A species as this module sees it: [members], a dict from genome key to
    genome, kept as its list of items in iteration order. *)
Record Species (G : Type) : Type := { members : list (Z * G) }.

Arguments Build_Species {G} _.
Arguments members {G} _.

(** The calls received by the reporters. *)
Inductive event (F G : Type) : Type :=
| species_stagnant (s : Species G)
| info_avg_adjusted_fitness (x : F)
| info_spawn_amounts (l : list Z)
| info_species_fitness (l : list F).

Arguments species_stagnant {F G} s.
Arguments info_avg_adjusted_fitness {F G} x.
Arguments info_spawn_amounts {F G} l.
Arguments info_species_fitness {F G} l.

(** What [reproduce] returns: the list [[]] when no species is left, the dict
    [new_population] otherwise. *)
Inductive population (G : Type) : Type :=
| PopList (l : list G)
| PopDict (d : gmap Z G).

Arguments PopList {G} l.
Arguments PopDict {G} d.

Definition population_size {G} (p : population G) : nat :=
  match p with PopList l => length l | PopDict d => size d end.

Definition population_lookup {G} (p : population G) (key : Z) : option G :=
  match p with PopList _ => None | PopDict d => d !! key end.

(** The mutable state a call works on: the world of the collaborators (genome
    objects, random source), [self.genome_indexer], [self.ancestors], the
    [species.species] dict of the species set and the reporters' log. *)
Record state (F G W : Type) : Type := {
  world : W;
  genome_indexer : Z;
  ancestors : gmap Z (list Z);
  species : gmap Z (Species G);
  reporters : list (event F G);
}.

Arguments Build_state {F G W} _ _ _ _ _.
Arguments world {F G W} _.
Arguments genome_indexer {F G W} _.
Arguments ancestors {F G W} _.
Arguments species {F G W} _.
Arguments reporters {F G W} _.

(** The configuration read by [__init__]: [params.get(name)] is [None] when
    the parameter is absent. *)
Record params (F : Type) : Type := {
  param_elitism : option Z;
  param_survival_threshold : option F;
}.

Arguments Build_params {F} _ _.
Arguments param_elitism {F} _.
Arguments param_survival_threshold {F} _.

(** The immutable attributes of a [DefaultReproduction]. *)
Record DefaultReproduction (F : Type) : Type := {
  elitism : Z;
  survival_threshold : F;
}.

Arguments Build_DefaultReproduction {F} _ _.
Arguments elitism {F} _.
Arguments survival_threshold {F} _.

(** ** Collaborators *)

(** The genome class, the stagnation scheme and the random module: [deref]
    reads the object behind a reference and [fitness] its attribute; the
    others are the calls [reproduce] and [create_new] make. *)
Class Collaborators (F G Obj W : Type) : Type := {
  deref : W → G → Obj;
  fitness : Obj → F;
  stagnation_update : gmap Z (Species G) → W → list (Z * Species G * bool) * W;
  random_index : nat → W → nat * W;
  crossover : G → G → Z → W → G * W;
  mutate : G → W → W;
  genotype_create : Z → W → G * W;
}.

(** [l.sort(reverse=True, key=key)]: stable, so members with equal keys keep
    their order. *)
Fixpoint insert_desc {A F} `{PyFloat F} (key : A → F) (x : A) (l : list A) : list A :=
  match l with
  | [] => [x]
  | y :: l' => if flt (key x) (key y) then y :: insert_desc key x l' else x :: l
  end.

Fixpoint sort_desc {A F} `{PyFloat F} (key : A → F) (l : list A) : list A :=
  match l with
  | [] => []
  | x :: l' => insert_desc key x (sort_desc key l')
  end.

Section reproduction.
Context {F G Obj W : Type} `{PyFloat F} `{Collaborators F G Obj W}.

Abbreviation st := (state F G W).
Abbreviation Species := (Species G).

(** *** State access *)

Definition set_world (w : W) (s : st) : st :=
  Build_state w (genome_indexer s) (ancestors s) (species s) (reporters s).

Definition set_genome_indexer (n : Z) (s : st) : st :=
  Build_state (world s) n (ancestors s) (species s) (reporters s).

Definition set_ancestors (a : gmap Z (list Z)) (s : st) : st :=
  Build_state (world s) (genome_indexer s) a (species s) (reporters s).

Definition set_species (m : gmap Z Species) (s : st) : st :=
  Build_state (world s) (genome_indexer s) (ancestors s) m (reporters s).

Definition report (e : event F G) : M st () :=
  modify (λ s, Build_state (world s) (genome_indexer s) (ancestors s)
                           (species s) (reporters s ++ [e])).

(** A call into the collaborators. *)
Definition call {A} (f : W → A * W) : M st A :=
  λ s, let '(a, w) := f (world s) in Ok a (set_world w s).

(** [m.fitness] *)
Definition read_fitness (m : G) : M st F :=
  λ s, Ok (fitness (deref (world s) m)) s.

(** Modelled from the spec: [Indexer.get_next] of [neat.indexer], which is
    not part of this module; it issues the identifiers in increasing order,
    one at a time. *)
Definition get_next : M st Z :=
  λ s, Ok (genome_indexer s) (set_genome_indexer (genome_indexer s + 1) s).

(** [random.choice(seq)] *)
Definition random_choice {A} (seq : list A) : M st A :=
  match seq with
  | [] => raise IndexError
  | x :: _ => i ← call (random_index (length seq)); mret (nth i seq x)
  end.

(** *** [__init__] *)

Definition py_int (v : option Z) : M st Z :=
  match v with None => raise TypeError | Some n => mret n end.

Definition py_float (v : option F) : M st F :=
  match v with None => raise TypeError | Some x => mret x end.

Definition init (p : params F) : M st (DefaultReproduction F) :=
  e ← py_int (param_elitism p);
  t ← py_float (param_survival_threshold p);
  _ ← modify (set_genome_indexer 1);
  _ ← modify (set_ancestors ∅);
  mret (Build_DefaultReproduction e t).

(** *** [create_new] *)

Fixpoint create_loop (n : nat) (new_genomes : gmap Z G) : M st (gmap Z G) :=
  match n with
  | O => mret new_genomes
  | S n' =>
      key ← get_next;
      g ← call (genotype_create key);
      _ ← modify (λ s, set_ancestors (<[key := []]> (ancestors s)) s);
      create_loop n' (<[key := g]> new_genomes)
  end.

Definition create_new (num_genomes : Z) : M st (gmap Z G) :=
  create_loop (Z.to_nat num_genomes) ∅.

(** *** [reproduce] *)

(** Lines 57-58: the body of the loop over the members. *)
Definition share (n : Z) (species_sum : F) (item : Z * G) : M st F :=
  let '(_, m) := item in
  f ← read_fitness m;
  af ← div_int f n;
  mret (fadd species_sum af).

(** Lines 55-60: the adjusted fitness of one species. *)
Definition adjusted_fitness (s : Species) : M st F :=
  let n := Z.of_nat (length (members s)) in
  species_sum ← for_each (members s) lit_0_0 (share n);
  div_int species_sum n.

(** Lines 49-62: the body of the loop over the stagnation feed. *)
Definition fitness_step (acc : Z * list (Z * Species * F) * F)
    (item : Z * Species * bool) : M st (Z * list (Z * Species * F) * F) :=
  let '(num_remaining, species_fitness, avg_adjusted_fitness) := acc in
  let '(sid, s, stagnant) := item in
  if stagnant then
    _ ← report (species_stagnant s);
    mret (num_remaining, species_fitness, avg_adjusted_fitness)
  else
    sfitness ← adjusted_fitness s;
    mret (num_remaining + 1,
          species_fitness ++ [(sid, s, sfitness)],
          fadd avg_adjusted_fitness sfitness).

(** Lines 45-62: the pass over the stagnation feed. *)
Definition fitness_pass (feed : list (Z * Species * bool))
  : M st (Z * list (Z * Species * F) * F) :=
  for_each feed (0, [], lit_0_0) fitness_step.

(** Lines 73-80: the spawn amount of each species before normalization. *)
Definition raw_spawn (avg_adjusted_fitness : F) (sf : Z * Species * F) : F :=
  let '(_, s, sfitness) := sf in
  let spawn := of_int (Z.of_nat (length (members s))) in
  if flt avg_adjusted_fitness sfitness then fmul spawn lit_1_1
  else fmul spawn lit_0_9.

(** Lines 84-86: normalization to the requested population size. *)
Definition normalize (pop_size : Z) (spawn_amounts : list F) : M st (list Z) :=
  let total_spawn := py_sum spawn_amounts in
  norm ← int_div pop_size total_spawn;
  list_comp (λ n, lift_exn (py_round (fmul n norm))) spawn_amounts.

(** Lines 117-120: the members allowed to be parents. *)
Definition breeding_pool (self : DefaultReproduction F) (old_members : list (Z * G))
  : exn + list (Z * G) :=
  match py_ceil (fmul (survival_threshold self)
                      (of_int (Z.of_nat (length old_members)))) with
  | inl e => inl e
  | inr repro_cutoff =>
      let repro_cutoff := Z.max repro_cutoff 2 in
      inr (take (Z.to_nat repro_cutoff) old_members)
  end.

(** Lines 123-135: the [while spawn > 0] loop; [fuel] bounds the number of
    iterations the model may run. *)
Fixpoint breed (fuel : nat) (spawn : Z) (old_members : list (Z * G))
    (new_population : gmap Z G) : M st (gmap Z G) :=
  if 0 <? spawn then
    match fuel with
    | O => timeout
    | S fuel' =>
        let spawn := spawn - 1 in
        '(parent1_id, parent1) ← random_choice old_members;
        '(parent2_id, parent2) ← random_choice old_members;
        gid ← get_next;
        child ← call (crossover parent1 parent2 gid);
        _ ← call (λ w, ((), mutate child w));
        let new_population := <[gid := child]> new_population in
        _ ← modify (λ s, set_ancestors (<[gid := [parent1_id; parent2_id]]> (ancestors s)) s);
        breed fuel' spawn old_members new_population
    end
  else mret new_population.

(** Lines 108-111: the elites go to the new population as they are. *)
Definition transfer_elites (self : DefaultReproduction F) (old_members : list (Z * G))
    (new_population : gmap Z G) (spawn : Z) : gmap Z G * Z :=
  if 0 <? elitism self then
    foldl (λ '(new_population, spawn) '(i, m), (<[i := m]> new_population, spawn - 1))
          (new_population, spawn)
          (take (Z.to_nat (elitism self)) old_members)
  else (new_population, spawn).

(** Lines 93-135: the body of the loop over the species. *)
Definition reproduce_species (self : DefaultReproduction F) (fuel : nat)
    (new_population : gmap Z G) (item : Z * (Z * Species * F)) : M st (gmap Z G) :=
  let '(spawn, (sid, s, sfitness)) := item in
  let spawn := Z.max spawn (elitism self) in
  if spawn <=? 0 then mret new_population
  else
    let old_members := members s in
    _ ← modify (λ t, set_species (<[sid := Build_Species []]> (species t)) t);
    w ← (λ t, Ok (world t) t);
    let old_members := sort_desc (λ x, fitness (deref w x.2)) old_members in
    let '(new_population, spawn) :=
      transfer_elites self old_members new_population spawn in
    if spawn <=? 0 then mret new_population
    else
      old_members ← lift_exn (breeding_pool self old_members);
      breed fuel spawn old_members new_population.

Definition reproduce (self : DefaultReproduction F) (fuel : nat) (pop_size : Z)
  : M st (population G) :=
  sp ← (λ t, Ok (species t) t);
  feed ← call (stagnation_update sp);
  '(num_remaining, species_fitness, avg_adjusted_fitness) ← fitness_pass feed;
  if num_remaining =? 0 then
    _ ← modify (set_species ∅);
    mret (PopList [])
  else
    avg_adjusted_fitness ←
      div_int avg_adjusted_fitness (Z.of_nat (length species_fitness));
    _ ← report (info_avg_adjusted_fitness avg_adjusted_fitness);
    let spawn_amounts := map (raw_spawn avg_adjusted_fitness) species_fitness in
    spawn_amounts ← normalize pop_size spawn_amounts;
    _ ← report (info_spawn_amounts spawn_amounts);
    _ ← report (info_species_fitness (map snd species_fitness));
    let new_population : gmap Z G := ∅ in
    _ ← modify (set_species ∅);
    new_population ←
      for_each (zip spawn_amounts species_fitness) new_population
               (reproduce_species self fuel);
    mret (PopDict new_population).

End reproduction.

(** ** A concrete genome class

    Collaborators to run the methods on: genome objects live at the addresses
    of a list, a child is allocated at the next free address and evaluated
    later (fitness 0.0 until then), mutation marks the object it is applied
    to. The stagnation scheme goes through the species in the order of their
    keys; its verdicts and the random draws are parameters. *)
Module Lab.

Record genome (F : Type) : Type := {
  g_fitness : F;
  g_key : Z;
  g_parents : list nat;
  g_mutated : bool;
}.

Arguments Build_genome {F} _ _ _ _.
Arguments g_fitness {F} _.
Arguments g_key {F} _.
Arguments g_parents {F} _.
Arguments g_mutated {F} _.

Record lab_world (F : Type) : Type := {
  objects : list (genome F);
  draws : nat;
}.

Arguments Build_lab_world {F} _ _.
Arguments objects {F} _.
Arguments draws {F} _.

Definition founder `{PyFloat F} (x : F) (key : Z) : genome F :=
  Build_genome x key [] false.

Definition alloc {F} (o : genome F) (w : lab_world F) : nat * lab_world F :=
  (length (objects w), Build_lab_world (objects w ++ [o]) (draws w)).

Definition mark_mutated {F} (o : genome F) : genome F :=
  Build_genome (g_fitness o) (g_key o) (g_parents o) true.

Fixpoint insert_by_key {A} (x : Z * A) (l : list (Z * A)) : list (Z * A) :=
  match l with
  | [] => [x]
  | y :: l' => if x.1 <=? y.1 then x :: l else y :: insert_by_key x l'
  end.

Definition by_key {A} (l : list (Z * A)) : list (Z * A) :=
  foldr insert_by_key [] l.

Definition collaborators `{PyFloat F} (stagnant : Z → bool) (pick : nat → nat)
  : Collaborators F nat (genome F) (lab_world F) := {|
  deref := λ w g, nth g (objects w) (founder lit_0_0 0);
  fitness := g_fitness;
  stagnation_update := λ sp w,
    (map (λ '(sid, s), (sid, s, stagnant sid)) (by_key (map_to_list sp)), w);
  random_index := λ n w,
    (pick (draws w), Build_lab_world (objects w) (S (draws w)));
  crossover := λ p1 p2 gid w,
    alloc (Build_genome lit_0_0 gid [p1; p2] false) w;
  mutate := λ c w,
    Build_lab_world (alter mark_mutated c (objects w)) (draws w);
  genotype_create := λ key w, alloc (founder lit_0_0 key) w;
|}.

(** A population given by the fitness values of its species: genome keys
    and addresses are issued in order, species keys start at 1. *)
Fixpoint place {F} `{PyFloat F} (fits : list Z) (key : Z) (addr : nat)
  : list (Z * nat) * list (genome F) :=
  match fits with
  | [] => ([], [])
  | x :: fits' =>
      let '(ms, os) := place fits' (key + 1) (S addr) in
      ((key, addr) :: ms, founder (of_int x) key :: os)
  end.

Fixpoint settle {F} `{PyFloat F} (groups : list (list Z)) (sid key : Z) (addr : nat)
  : list (Z * Species nat) * list (genome F) :=
  match groups with
  | [] => ([], [])
  | fits :: groups' =>
      let '(ms, os) := place fits key addr in
      let '(sp, os') := settle groups' (sid + 1) (key + Z.of_nat (length fits))
                               (addr + length fits)%nat in
      ((sid, Build_Species ms) :: sp, os ++ os')
  end.

Definition setup {F} `{PyFloat F} (groups : list (list Z)) : state F nat (lab_world F) :=
  let '(sp, os) := settle groups 1 1 0%nat in
  Build_state (Build_lab_world os 0%nat) (1 + Z.of_nat (length os)) ∅
              (list_to_map sp) [].

(** Verdicts and draws to run with. *)
Definition all_stagnant : Z → bool := λ _, true.
Definition none_stagnant : Z → bool := λ _, false.
Definition first_choice : nat → nat := λ _, 0%nat.

(** [reproduce] and [create_new] with these collaborators. *)
Definition reproduce_in {F} `{PyFloat F} (stagnant : Z → bool) (pick : nat → nat)
    (self : DefaultReproduction F) (fuel : nat) (pop_size : Z)
  : M (state F nat (lab_world F)) (population nat) :=
  reproduce (H0 := collaborators stagnant pick) self fuel pop_size.

Definition create_new_in {F} `{PyFloat F} (num_genomes : Z)
  : M (state F nat (lab_world F)) (gmap Z nat) :=
  create_new (H0 := collaborators none_stagnant first_choice) num_genomes.

End Lab.


(** * Notions used by the statements *)

(** [returns m s Q]: from [s], [m] ends normally with a value and a state
    that satisfy [Q]. *)
Definition returns {S A} (m : M S A) (s : S) (Q : A → S → Prop) : Prop :=
  match m s with Ok a s' => Q a s' | _ => False end.

(** [raises m s e Q]: from [s], [m] ends with the exception [e] in a state
    that satisfies [Q]. *)
Definition raises {S A} (m : M S A) (s : S) (e : exn) (Q : S → Prop) : Prop :=
  match m s with Raise e' s' => e' = e ∧ Q s' | _ => False end.

(** [safe m s Q]: from [s], [m] ends, normally with a value and a state that
    satisfy [Q] or with an exception. *)
Definition safe {S A} (m : M S A) (s : S) (Q : A → S → Prop) : Prop :=
  match m s with Ok a s' => Q a s' | Raise _ _ => True | Timeout => False end.

(** [new_population[i] = m] for each item of [l], in order. *)
Definition insert_items {G} (d : gmap Z G) (l : list (Z * G)) : gmap Z G :=
  foldl (λ d item, <[item.1 := item.2]> d) d l.

(** The sum of a list of integers. *)
Definition Zsum (l : list Z) : Z := foldr Z.add 0 l.

(** The sum of a list of rationals. *)
Definition Qsum (l : list Q) : Q := foldr Qplus 0%Q l.

Section notions.
Context {F G Obj W : Type} `{PyFloat F} `{Collaborators F G Obj W}.

(** The value line 57-58 accumulate: each member's fitness over the number
    of members, added from the left to 0.0. *)
Definition shared_sum (w : W) (n : Z) (ms : list (Z * G)) (acc : F) : F :=
  foldl (λ acc m, fadd acc (fquot (fitness (deref w m.2)) (of_int n))) acc ms.

(** The adjusted fitness lines 55-60 compute for a species with members. *)
Definition adjusted (w : W) (s : Species G) : F :=
  let n := Z.of_nat (length (members s)) in
  fquot (shared_sum w n (members s) lit_0_0) (of_int n).

(** The species the stagnation scheme lets live, in the order of its feed. *)
Definition surviving (feed : list (Z * Species G * bool)) : list (Z * Species G) :=
  omap (λ item : Z * Species G * bool, if item.2 then None else Some item.1) feed.

Definition scored (w : W) (l : list (Z * Species G)) : list (Z * Species G * F) :=
  map (λ item : Z * Species G, (item, adjusted w item.2)) l.

Definition stagnant_reports (feed : list (Z * Species G * bool)) : list (event F G) :=
  omap (λ item : Z * Species G * bool,
          if item.2 then Some (species_stagnant item.1.2) else None) feed.

Definition add_reports (es : list (event F G)) (t : state F G W) : state F G W :=
  Build_state (world t) (genome_indexer t) (ancestors t) (species t)
              (reporters t ++ es).

(** What [self.stagnation.update(species.species)] yields in a state, and
    the state it leaves. *)
Definition feed_of (t : state F G W) : list (Z * Species G * bool) :=
  (stagnation_update (species t) (world t)).1.

Definition fed (t : state F G W) : state F G W :=
  set_world (stagnation_update (species t) (world t)).2 t.

(** The members of a species in the order line 105 puts them. *)
Definition by_fitness (w : W) (item : Z * G) : F := fitness (deref w item.2).

Definition ranked (w : W) (s : Species G) : list (Z * G) :=
sort_desc (by_fitness w) (members s).

(** The members lines 108-111 copy, out of the sorted ones. *)
Definition elites (self : DefaultReproduction F) (old_members : list (Z * G))
  : list (Z * G) :=
if 0 <? elitism self then take (Z.to_nat (elitism self)) old_members else [].

(** Line 94: the spawn amount of a species once elitism is counted in. *)
Definition allotted (self : DefaultReproduction F) (spawn : Z) : Z :=
Z.max spawn (elitism self).

(** A species is retained when its allotted amount is positive. *)
Definition retained (self : DefaultReproduction F) (spawn : Z) : bool :=
0 <? allotted self spawn.

(** The elites a species gets copied, given its normalized spawn amount. *)
Definition elite_items (self : DefaultReproduction F) (w : W)
  (item : Z * (Z * Species G * F)) : list (Z * G) :=
if retained self item.1 then elites self (ranked w item.2.1.2) else [].

Definition elite_count (self : DefaultReproduction F)
  (item : Z * (Z * Species G * F)) : nat :=
if retained self item.1 then
  if 0 <? elitism self
  then Z.to_nat (elitism self) `min` length (members item.2.1.2)
  else 0
else 0.

(** The children a species gets bred: what is left of its allotted amount. *)
Definition offspring_count (self : DefaultReproduction F)
  (item : Z * (Z * Species G * F)) : nat :=
if retained self item.1
then Z.to_nat (allotted self item.1 - Z.of_nat (elite_count self item))
else 0.

(** The keys of the members of some species. *)
Definition member_keys (items : list (Z * (Z * Species G * F))) : list Z :=
items ≫= λ item : Z * (Z * Species G * F), (members item.2.1.2).*1.

(** The elites copied and the children bred over some species. *)
Definition total_elites (self : DefaultReproduction F)
  (items : list (Z * (Z * Species G * F))) : nat :=
sum_list_with (elite_count self) items.

Definition total_offspring (self : DefaultReproduction F)
  (items : list (Z * (Z * Species G * F))) : nat :=
sum_list_with (offspring_count self) items.

(** The species dict lines 91 and 102 rebuild. *)
Definition rebuilt (self : DefaultReproduction F) (sp : gmap Z (Species G))
  (items : list (Z * (Z * Species G * F))) : gmap Z (Species G) :=
foldl (λ (sp : gmap Z (Species G)) (item : Z * (Z * Species G * F)),
         if retained self item.1
         then <[item.2.1.1 := Build_Species []]> sp else sp) sp items.

(** A relation between worlds that every step of the breeding loop keeps:
    drawing a random index, and making a child by crossover and mutation. *)
Record kept_by_breeding (R : W → W → Prop) : Prop := {
  kept_refl : ∀ w, R w w;
  kept_trans : ∀ w1 w2 w3, R w1 w2 → R w2 w3 → R w1 w3;
  kept_random : ∀ n w, R w (random_index n w).2;
  kept_child : ∀ p1 p2 gid w,
    R w (mutate (crossover p1 p2 gid w).1 (crossover p1 p2 gid w).2);
}.

(** What the loop of lines 123-135 does with [n] children to breed from the
    members [pool]: it issues the next [n] identifiers, puts a child under
    each in the new population and records its two parents, both from the
    pool; older entries, the species dict and the reporters are left alone. *)
Definition bred (R : W → W → Prop) (pool : list (Z * G)) (d : gmap Z G)
  (t : state F G W) (n : Z) (d' : gmap Z G) (t' : state F G W) : Prop :=
genome_indexer t' = genome_indexer t + n ∧
species t' = species t ∧
reporters t' = reporters t ∧
R (world t) (world t') ∧
(∀ k, k < genome_indexer t → d' !! k = d !! k) ∧
(∀ k, k ∈ dom d' ↔ k ∈ dom d ∨ genome_indexer t ≤ k < genome_indexer t') ∧
size d' = (size d + Z.to_nat n)%nat ∧
(∀ k, k < genome_indexer t → ancestors t' !! k = ancestors t !! k) ∧
(∀ k, genome_indexer t ≤ k < genome_indexer t' →
      ∃ p1 p2, ancestors t' !! k = Some [p1; p2] ∧ p1 ∈ pool.*1 ∧ p2 ∈ pool.*1).

(** Line 69: the average of the adjusted fitness of the surviving species. *)
Definition average (sf : list (Z * Species G * F)) : F :=
fquot (foldl fadd lit_0_0 (map snd sf)) (of_int (Z.of_nat (length sf))).

(** Lines 73-86: [spawns] are the normalized spawn amounts of the scored
    species [sf] for a population of [pop_size]. *)
Definition spawn_plan (pop_size : Z) (sf : list (Z * Species G * F))
  (spawns : list Z) : Prop :=
let raws := map (raw_spawn (average sf)) sf in
let norm := fquot (of_int pop_size) (py_sum raws) in
Forall2 (λ z raw, py_round (fmul raw norm) = inr z) spawns raws.

(** The surviving species of a state, scored as line 61 records them, and the
    keys of their members. *)
Definition survivors (t : state F G W) : list (Z * Species G * F) :=
scored (world (fed t)) (surviving (feed_of t)).

Definition survivor_keys (t : state F G W) : list Z :=
surviving (feed_of t) ≫= λ item : Z * Species G, (members item.2).*1.

(** The state in which the loop over the species starts: the stagnant species
    and the three lines of information reported, the species dict emptied. *)
Definition planned (t : state F G W) (spawns : list Z) : state F G W :=
set_species ∅
  (add_reports [info_avg_adjusted_fitness (average (survivors t));
                info_spawn_amounts spawns;
                info_species_fitness (map snd (survivors t))]
     (add_reports (stagnant_reports (feed_of t)) (fed t))).

(** What the loop of lines 92-135 leaves after the species [items], each with
    its normalized spawn amount, started in [t] with an empty population: the
    elites and the children of every species, the children under the
    identifiers issued meanwhile, and the retained species with no members. *)
Definition generation (R : W → W → Prop) (self : DefaultReproduction F)
  (items : list (Z * (Z * Species G * F)))
  (t : state F G W) (d : gmap Z G) (t' : state F G W) : Prop :=
genome_indexer t' = genome_indexer t + Z.of_nat (total_offspring self items) ∧
size d = (total_elites self items + total_offspring self items)%nat ∧
species t' = rebuilt self (species t) items ∧
reporters t' = reporters t ∧
R (world t) (world t') ∧
(∀ k, k ∈ dom d →
      k ∈ member_keys items ∨ genome_indexer t ≤ k < genome_indexer t') ∧
(∀ item, item ∈ items →
   ∃ w, R (world t) w ∧
        ∀ i m, (i, m) ∈ elite_items self w item → d !! i = Some m).

(** The genome objects of a world stay as they are in another. *)
Definition preserved (allocated : W → G → Prop) (w w' : W) : Prop :=
∀ g, allocated w g → allocated w' g ∧ deref w' g = deref w g.

(** The discipline of a genome class whose objects are allocated once and
    changed only through the reference they are mutated by: the stagnation
    scheme and the random source leave the genomes alone, crossover returns a
    new object and mutation changes the object it is called on only. *)
Record heap_discipline (allocated : W → G → Prop) : Prop := {
  stagnation_frame : ∀ sp w, preserved allocated w (stagnation_update sp w).2;
  random_frame : ∀ n w, preserved allocated w (random_index n w).2;
  crossover_frame : ∀ p1 p2 gid w,
    preserved allocated w (crossover p1 p2 gid w).2 ∧
    ¬ allocated w (crossover p1 p2 gid w).1;
  mutate_frame : ∀ c w g,
    allocated w g →
    allocated (mutate c w) g ∧ (g ≠ c → deref (mutate c w) g = deref w g);
}.

End notions.

(** The laws of an arithmetic in which the spawn computation cannot fail. *)
Class ExactFloat (F : Type) `{PyFloat F} : Prop := {
  py_round_defined : ∀ x : F, ∃ z, py_round x = inr z;
  py_ceil_defined : ∀ x : F, ∃ z, py_ceil x = inr z;
  spawn_total_nonzero : ∀ l : list (Z * bool),
    l ≠ [] →
    Forall (λ item, 0 < item.1) l →
    fzero (py_sum (map (λ item : Z * bool,
             fmul (of_int item.1) (if item.2 then lit_1_1 else lit_0_9)) l))
    = false;
}.


(** ** Notions for what a call leaves when it returns *)

(** [ends m s Q E]: when [m] ends from [s], it does so normally with a value
    and a state that satisfy [Q], or with an exception that satisfies [E]. *)
Definition ends {S A} (m : M S A) (s : S) (Q : A → S → Prop) (E : exn → Prop)
  : Prop :=
  match m s with Ok a s' => Q a s' | Raise e _ => E e | Timeout => True end.


Section lineage.
Context {F G Obj W : Type} `{PyFloat F} `{Collaborators F G Obj W}.

(** Lines 73-80 and 84-85: the spawn amounts before normalization and the
    factor they are normalized by, as the surviving species of a state give
    them. *)
Definition raw_spawns (t : state F G W) : list F :=
map (raw_spawn (average (survivors t))) (survivors t).

Definition spawn_norm (pop_size : Z) (t : state F G W) : F :=
fquot (of_int pop_size) (py_sum (raw_spawns t)).

(** What makes a call raise: a surviving species without members (line 60),
    a total spawn amount of zero (line 85), [round] failing on a normalized
    amount (line 86) or [math.ceil] on the cutoff of a species (line 117). *)
Definition failure_cause (self : DefaultReproduction F) (pop_size : Z)
  (t : state F G W) (e : exn) : Prop :=
(e = ZeroDivisionError ∧
 ∃ sid s, (sid, s) ∈ surviving (feed_of t) ∧ members s = []) ∨
(e = ZeroDivisionError ∧ fzero (py_sum (raw_spawns t)) = true) ∨
(∃ raw, raw ∈ raw_spawns t ∧
        py_round (fmul raw (spawn_norm pop_size t)) = inl e) ∨
(∃ sid s, (sid, s) ∈ surviving (feed_of t) ∧
          py_ceil (fmul (survival_threshold self)
                        (of_int (Z.of_nat (length (members s))))) = inl e).


(** The keys of the members a species may breed from in the world [w]: those
    of its breeding pool. *)
Definition breeding_keys (self : DefaultReproduction F) (w : W)
  (item : Z * (Z * Species G * F)) : list Z :=
match breeding_pool self (ranked w item.2.1.2) with
| inr pool => pool.*1
| inl _ => []
end.

(** What the loop of lines 123-135 leaves whenever it ends normally. *)
Definition bred_any (R : W → W → Prop) (pool : list (Z * G)) (d : gmap Z G)
  (t : state F G W) (n : Z) (d' : gmap Z G) (t' : state F G W) : Prop :=
genome_indexer t' = genome_indexer t + n ∧
species t' = species t ∧
reporters t' = reporters t ∧
R (world t) (world t') ∧
(∀ k, k < genome_indexer t → d' !! k = d !! k) ∧
(∀ k, k ∈ dom d' ↔ k ∈ dom d ∨ genome_indexer t ≤ k < genome_indexer t') ∧
((∀ k, k ∈ dom d → k < genome_indexer t) → size d' = (size d + Z.to_nat n)%nat) ∧
(∀ k, k < genome_indexer t → ancestors t' !! k = ancestors t !! k) ∧
(∀ k, genome_indexer t ≤ k < genome_indexer t' →
      ∃ p1 p2, ancestors t' !! k = Some [p1; p2] ∧ p1 ∈ pool.*1 ∧ p2 ∈ pool.*1).

(** What the body of the loop over the species leaves for one species. *)
Definition species_done (R : W → W → Prop) (self : DefaultReproduction F)
  (item : Z * (Z * Species G * F)) (d : gmap Z G) (t : state F G W)
  (d' : gmap Z G) (t' : state F G W) : Prop :=
genome_indexer t' = genome_indexer t + Z.of_nat (offspring_count self item) ∧
species t' = (if retained self item.1
              then <[item.2.1.1 := Build_Species []]> (species t)
              else species t) ∧
reporters t' = reporters t ∧
R (world t) (world t') ∧
(∀ k, k ∈ dom d' ↔
      k ∈ dom d ∨ k ∈ (elite_items self (world t) item).*1 ∨
      genome_indexer t ≤ k < genome_indexer t') ∧
(elitism self ≤ 0 → (∀ k, k ∈ dom d → k < genome_indexer t) →
 size d' = (size d + offspring_count self item)%nat) ∧
(∀ k, k < genome_indexer t → ancestors t' !! k = ancestors t !! k) ∧
(∀ k, genome_indexer t ≤ k < genome_indexer t' →
      ∃ p1 p2, ancestors t' !! k = Some [p1; p2] ∧
               p1 ∈ breeding_keys self (world t) item ∧
               p2 ∈ breeding_keys self (world t) item).

(** What the loop over the species leaves whenever it ends normally. *)
Definition generated (R : W → W → Prop) (self : DefaultReproduction F)
  (items : list (Z * (Z * Species G * F)))
  (t : state F G W) (d : gmap Z G) (t' : state F G W) : Prop :=
genome_indexer t' = genome_indexer t + Z.of_nat (total_offspring self items) ∧
species t' = rebuilt self (species t) items ∧
reporters t' = reporters t ∧
R (world t) (world t') ∧
(∀ k, k ∈ dom d →
      (∃ item w, item ∈ items ∧ R (world t) w ∧
                 k ∈ (elite_items self w item).*1) ∨
      genome_indexer t ≤ k < genome_indexer t') ∧
(∀ k, genome_indexer t ≤ k < genome_indexer t' → k ∈ dom d) ∧
(elitism self ≤ 0 → size d = total_offspring self items) ∧
(∀ k, k < genome_indexer t → ancestors t' !! k = ancestors t !! k) ∧
(∀ k, genome_indexer t ≤ k < genome_indexer t' →
      ∃ item w p1 p2,
        item ∈ items ∧ R (world t) w ∧
        ancestors t' !! k = Some [p1; p2] ∧
        p1 ∈ breeding_keys self w item ∧ p2 ∈ breeding_keys self w item).

End lineage.

(** ** The scenario of the specification

    Two surviving species, A with fitness values 10, 20, 30 and B with 5, 5;
    elitism 1, survival threshold 0.5, target size 6. The genomes have the
    keys 1 to 5 and live at the addresses 0 to 4. *)
Module Scenario.

Definition start {F} `{PyFloat F} : state F nat (Lab.lab_world F) :=
Lab.setup [[10; 20; 30]; [5; 5]].

Definition A : Species nat := Build_Species [(1, 0%nat); (2, 1%nat); (3, 2%nat)].
Definition B : Species nat := Build_Species [(4, 3%nat); (5, 4%nat)].

Definition exact : DefaultReproduction Q := Build_DefaultReproduction 1 (1 # 2)%Q.

Definition binary64 : DefaultReproduction float :=
Build_DefaultReproduction 1 0.5%float.

(** [x] is [c] up to a billionth. *)
Definition near (x c : float) : bool :=
PrimFloat.ltb (PrimFloat.abs (x - c)) (1 / 1000000000)%float.

End Scenario.
(** * Properties *)

(** ** Reasoning about runs *)

Lemma bind_unfold {S A B} (m : M S A) (f : A → M S B) (s : S) :
  (m ≫= f) s =
  match m s with
  | Ok a s' => f a s'
  | Raise e s' => Raise e s'
  | Timeout => Timeout
  end.
Proof. reflexivity. Qed.

Lemma returns_iff {S A} (m : M S A) s Q :
  returns m s Q ↔ ∃ a s', m s = Ok a s' ∧ Q a s'.
Proof.
  unfold returns. split.
  - destruct (m s) as [a s'| |]; [eauto | done | done].
  - intros (a & s' & -> & HQ). done.
Qed.

Lemma raises_iff {S A} (m : M S A) s e Q :
  raises m s e Q ↔ ∃ s', m s = Raise e s' ∧ Q s'.
Proof.
  unfold raises. split.
  - destruct (m s) as [| e' s' |]; [done | | done]. intros [-> HQ]. eauto.
  - intros (s' & -> & HQ). done.
Qed.

Lemma returns_ret {S A} (a : A) (s : S) (Q : A → S → Prop) :
  Q a s → returns (mret a) s Q.
Proof. done. Qed.

Lemma returns_bind {S A B} (m : M S A) (f : A → M S B) s Q :
  returns m s (λ a s', returns (f a) s' Q) → returns (m ≫= f) s Q.
Proof.
  unfold returns. rewrite bind_unfold. destruct (m s); done.
Qed.

Lemma returns_bind_inv {S A B} (m : M S A) (f : A → M S B) s Q :
  returns (m ≫= f) s Q → returns m s (λ a s', returns (f a) s' Q).
Proof.
  unfold returns. rewrite bind_unfold. destruct (m s); done.
Qed.

Lemma returns_mono {S A} (m : M S A) s (Q Q' : A → S → Prop) :
  returns m s Q → (∀ a s', Q a s' → Q' a s') → returns m s Q'.
Proof.
  unfold returns. destruct (m s); [eauto | done | done].
Qed.

Lemma returns_and {S A} (m : M S A) s (Q Q' : A → S → Prop) :
  returns m s Q → returns m s Q' → returns m s (λ a s', Q a s' ∧ Q' a s').
Proof.
  unfold returns. destruct (m s); done.
Qed.

Lemma raises_now {S A B} (m : M S A) (f : A → M S B) s e Q :
  raises m s e Q → raises (m ≫= f) s e Q.
Proof.
  unfold raises. rewrite bind_unfold. destruct (m s); done.
Qed.

Lemma raises_later {S A B} (m : M S A) (f : A → M S B) s e Q :
  returns m s (λ a s', raises (f a) s' e Q) → raises (m ≫= f) s e Q.
Proof.
  unfold returns, raises. rewrite bind_unfold. destruct (m s); done.
Qed.

Lemma raises_mono {S A} (m : M S A) s e (Q Q' : S → Prop) :
  raises m s e Q → (∀ s', Q s' → Q' s') → raises m s e Q'.
Proof.
  unfold raises. destruct (m s); [done | | done]. intros [-> HQ] HQQ'. eauto.
Qed.

Lemma for_each_cons {S A B} (body : B → A → M S B) x l acc s :
  for_each (x :: l) acc body s =
  match body acc x s with
  | Ok acc' s' => for_each l acc' body s'
  | Raise e s' => Raise e s'
  | Timeout => Timeout
  end.
Proof. reflexivity. Qed.

(** A loop whose body keeps an invariant that depends on the items left. *)
Lemma returns_for_each {S A B} (body : B → A → M S B) (I : list A → B → S → Prop) :
  ∀ l acc s,
    I l acc s →
    (∀ x l' acc s, I (x :: l') acc s → returns (body acc x) s (I l')) →
    returns (for_each l acc body) s (I []).
Proof.
  induction l as [|x l IH]; intros acc s HI Hbody; simpl.
  - by apply returns_ret.
  - apply returns_bind. eapply returns_mono; [by apply Hbody|].
    intros acc' s' HI'. by apply IH.
Qed.

(** The same with the items done in the invariant too. *)
Lemma returns_for_each_split {S A B} (body : B → A → M S B)
    (I : list A → list A → B → S → Prop) :
  ∀ l pre acc s,
    I pre l acc s →
    (∀ pre x l' acc s,
       I pre (x :: l') acc s → returns (body acc x) s (I (pre ++ [x]) l')) →
    returns (for_each l acc body) s (I (pre ++ l) []).
Proof.
  induction l as [|x l IH]; intros pre acc s HI Hbody; simpl.
  - apply returns_ret. by rewrite app_nil_r.
  - apply returns_bind. eapply returns_mono; [by apply Hbody|].
    intros acc' s' HI'. rewrite (cons_middle x pre l), app_assoc. by apply IH.
Qed.

Section runs.
Context {F G Obj W : Type} `{PyFloat F} `{Collaborators F G Obj W}.

Abbreviation st := (state F G W).

Lemma returns_get_next (t : st) (Q : Z → st → Prop) :
  Q (genome_indexer t) (set_genome_indexer (genome_indexer t + 1) t) →
  returns get_next t Q.
Proof. done. Qed.

Lemma returns_modify (f : st → st) (t : st) (Q : () → st → Prop) :
  Q () (f t) → returns (modify f) t Q.
Proof. done. Qed.

Lemma returns_report e (t : st) (Q : () → st → Prop) :
  Q () (add_reports [e] t) → returns (report e) t Q.
Proof. done. Qed.

Lemma returns_call {A} (f : W → A * W) (t : st) (Q : A → st → Prop) :
  (∀ a w, f (world t) = (a, w) → Q a (set_world w t)) →
  returns (call f) t Q.
Proof.
  intros HQ. unfold returns, call. destruct (f (world t)) as [a w]. by apply HQ.
Qed.

Lemma div_int_returns (x : F) (n : Z) (t : st) :
  n ≠ 0 → div_int x n t = Ok (fquot x (of_int n)) t.
Proof.
  intros Hn. unfold div_int. by destruct (Z.eqb_spec n 0).
Qed.

Lemma div_int_zero (x : F) (t : st) :
  div_int x 0 t = Raise ZeroDivisionError t.
Proof. reflexivity. Qed.

(** *** The adjusted fitness of one species *)

Lemma shared_loop (n : Z) (t : st) :
  n ≠ 0 →
  ∀ (ms : list (Z * G)) (acc : F),
    for_each ms acc (share n) t = Ok (shared_sum (world t) n ms acc) t.
Proof.
  intros Hn. induction ms as [|[k m] ms IH]; intros acc; simpl; [done|].
  rewrite bind_unfold. unfold share at 1. rewrite bind_unfold.
  unfold read_fitness at 1. rewrite bind_unfold, div_int_returns by done.
  simpl. apply IH.
Qed.

Lemma adjusted_fitness_returns (s : Species G) (t : st) :
  members s ≠ [] →
  adjusted_fitness s t =
  Ok (fquot (shared_sum (world t) (Z.of_nat (length (members s))) (members s) lit_0_0)
            (of_int (Z.of_nat (length (members s))))) t.
Proof.
  intros Hne. unfold adjusted_fitness.
  assert (Z.of_nat (length (members s)) ≠ 0) as Hn.
  { destruct (members s); [done | simpl; lia]. }
  rewrite bind_unfold, shared_loop by done.
  by apply div_int_returns.
Qed.

Lemma adjusted_fitness_empty (s : Species G) (t : st) :
  members s = [] → adjusted_fitness s t = Raise ZeroDivisionError t.
Proof.
  intros Hnil. unfold adjusted_fitness. rewrite Hnil. reflexivity.
Qed.

End runs.

(** ** The pass over the stagnation feed *)

Section fitness_pass.
Context {F G Obj W : Type} `{PyFloat F} `{Collaborators F G Obj W}.

Abbreviation st := (state F G W).

Lemma add_reports_nil (t : st) : add_reports [] t = t.
Proof. destruct t. unfold add_reports. simpl. by rewrite app_nil_r. Qed.

Lemma add_reports_cons e es (t : st) :
  add_reports (e :: es) t = add_reports es (add_reports [e] t).
Proof. unfold add_reports. simpl. by rewrite <- app_assoc. Qed.

Lemma elem_of_surviving (feed : list (Z * Species G * bool)) sid s :
  (sid, s) ∈ surviving feed ↔ (sid, s, false) ∈ feed.
Proof.
  unfold surviving. rewrite list_elem_of_omap. split.
  - intros ([[sid' s'] stag] & Hin & Heq). simpl in Heq.
    destruct stag; [done|]. by simplify_eq.
  - intros Hin. by exists (sid, s, false).
Qed.

Lemma fitness_step_stagnant acc sid s (t : st) :
  fitness_step acc (sid, s, true) t = Ok acc (add_reports [species_stagnant s] t).
Proof. by destruct acc as [[n sf] avg]. Qed.

Lemma fitness_step_active n sf avg sid s (t : st) :
  members s ≠ [] →
  fitness_step (n, sf, avg) (sid, s, false) t
  = Ok (n + 1, sf ++ [(sid, s, adjusted (world t) s)],
        fadd avg (adjusted (world t) s)) t.
Proof.
  intros Hne. unfold fitness_step. rewrite bind_unfold.
  by rewrite adjusted_fitness_returns.
Qed.

Lemma fitness_step_empty acc sid s (t : st) :
  members s = [] →
  fitness_step acc (sid, s, false) t = Raise ZeroDivisionError t.
Proof.
  intros Hnil. destruct acc as [[n sf] avg]. unfold fitness_step.
  rewrite bind_unfold. by rewrite adjusted_fitness_empty.
Qed.

(** With members in every surviving species the pass raises nothing: it
    counts and scores the surviving species and reports the others. *)
Lemma fitness_loop_returns (feed : list (Z * Species G * bool)) :
  ∀ n sf avg (t : st),
    (∀ sid s, (sid, s) ∈ surviving feed → members s ≠ []) →
    for_each feed (n, sf, avg) fitness_step t
    = Ok (n + Z.of_nat (length (surviving feed)),
          sf ++ scored (world t) (surviving feed),
          foldl fadd avg (map snd (scored (world t) (surviving feed))))
         (add_reports (stagnant_reports feed) t).
Proof.
  induction feed as [|[[sid s] stag] feed IH]; intros n sf avg t Hmem.
  - simpl. rewrite add_reports_nil, app_nil_r, Z.add_0_r. reflexivity.
  - rewrite for_each_cons. destruct stag.
    + rewrite fitness_step_stagnant, IH.
      2:{ intros sid' s' Hin. by eapply Hmem. }
      change (stagnant_reports ((sid, s, true) :: feed))
        with (species_stagnant (F:=F) s :: stagnant_reports feed).
      rewrite (add_reports_cons _ (stagnant_reports feed) t). reflexivity.
    + rewrite fitness_step_active.
      2:{ eapply Hmem. unfold surviving. simpl. left. }
      rewrite IH.
      2:{ intros sid' s' Hin. eapply Hmem. unfold surviving. simpl. by right. }
      change (surviving ((sid, s, false) :: feed)) with ((sid, s) :: surviving feed).
      change (stagnant_reports ((sid, s, false) :: feed))
        with (stagnant_reports (F:=F) feed).
      rewrite <- app_assoc. simpl length. rewrite Nat2Z.inj_succ.
      replace (n + 1 + Z.of_nat (length (surviving feed)))
        with (n + Z.succ (Z.of_nat (length (surviving feed)))) by lia.
      reflexivity.
Qed.

(** A surviving species without members stops the pass at the division of
    line 60; only stagnant species have been reported by then. *)
Lemma fitness_loop_raises (feed : list (Z * Species G * bool)) :
  ∀ acc (t : st),
    (∃ sid s, (sid, s) ∈ surviving feed ∧ members s = []) →
    ∃ es, Forall (λ e, ∃ s, e = species_stagnant s) es ∧
          for_each feed acc fitness_step t
          = Raise ZeroDivisionError (add_reports es t).
Proof.
  induction feed as [|[[sid s] stag] feed IH]; intros [[n sf] avg] t Hex.
  - destruct Hex as (? & ? & Hin & _). by apply elem_of_nil in Hin.
  - rewrite for_each_cons. destruct stag.
    + rewrite fitness_step_stagnant.
      destruct (IH (n, sf, avg) (add_reports [species_stagnant s] t))
        as (es & Hes & ->).
      { destruct Hex as (sid' & s' & Hin & Hnil). exists sid', s'. done. }
      exists (species_stagnant s :: es). split.
      * constructor; eauto.
      * by rewrite (add_reports_cons _ es t).
    + destruct (decide (members s = [])) as [Hnil|Hne].
      * rewrite fitness_step_empty by done.
        exists []. split; [done|]. by rewrite add_reports_nil.
      * rewrite fitness_step_active by done. apply IH.
        destruct Hex as (sid' & s' & Hin & Hnil). exists sid', s'.
        split; [|done]. unfold surviving in Hin. simpl in Hin.
        apply elem_of_cons in Hin as [Heq|Hin]; [|done]. by simplify_eq.
Qed.

Lemma reproduce_unfold self fuel pop_size (t : st) :
  reproduce self fuel pop_size t =
  ('(num_remaining, species_fitness, avg_adjusted_fitness) ← fitness_pass (feed_of t);
   if num_remaining =? 0 then
     _ ← modify (set_species ∅);
     mret (PopList [])
   else
     avg_adjusted_fitness ←
       div_int avg_adjusted_fitness (Z.of_nat (length species_fitness));
     _ ← report (info_avg_adjusted_fitness avg_adjusted_fitness);
     let spawn_amounts := map (raw_spawn avg_adjusted_fitness) species_fitness in
     spawn_amounts ← normalize pop_size spawn_amounts;
     _ ← report (info_spawn_amounts spawn_amounts);
     _ ← report (info_species_fitness (map snd species_fitness));
     _ ← modify (set_species ∅);
     new_population ←
       for_each (zip spawn_amounts species_fitness) ∅
                (reproduce_species self fuel);
     mret (PopDict new_population)) (fed t).
Proof.
  unfold reproduce. rewrite !bind_unfold. unfold call, feed_of, fed.
  simpl. destruct (stagnation_update (species t) (world t)) as [feed w].
  reflexivity.
Qed.

End fitness_pass.
(** ** Exact arithmetic *)

Lemma Qsum_cons (x : Q) (l : list Q) : Qsum (x :: l) = (x + Qsum l)%Q.
Proof. reflexivity. Qed.

Lemma foldl_Qplus (l : list Q) : ∀ a : Q, (foldl Qplus a l == a + Qsum l)%Q.
Proof.
  induction l as [|x l IH]; intros a.
  - unfold Qsum. simpl. lra.
  - change (foldl Qplus a (x :: l)) with (foldl Qplus (a + x)%Q l).
    rewrite IH, Qsum_cons. lra.
Qed.

Lemma py_sum_Qsum (l : list Q) : (py_sum l == Qsum l)%Q.
Proof.
  unfold py_sum. rewrite foldl_Qplus. change (of_int 0) with 0%Q. lra.
Qed.

Lemma Qsum_nonneg (l : list Q) : Forall (λ x, 0 <= x)%Q l → (0 <= Qsum l)%Q.
Proof.
  induction 1 as [|x l Hx _ IH]; [unfold Qsum; simpl; lra|].
  rewrite Qsum_cons. lra.
Qed.

Lemma Qsum_pos (l : list Q) :
  l ≠ [] → Forall (λ x, 0 < x)%Q l → (0 < Qsum l)%Q.
Proof.
  intros Hne Hpos. destruct Hpos as [|x l Hx Hl]; [done|].
  rewrite Qsum_cons. assert (0 <= Qsum l)%Q; [|lra].
  apply Qsum_nonneg. eapply Forall_impl; [exact Hl|]. simpl. intros; lra.
Qed.

Lemma of_int_pos (n : Z) : 0 < n → (0 < inject_Z n)%Q.
Proof. intros Hn. unfold Qlt, inject_Z. simpl. lia. Qed.

#[global] Instance Q_exact : ExactFloat Q.
Proof.
  split.
  - intros x. by eexists.
  - intros x. by eexists.
  - intros l Hne Hpos. simpl fzero. apply not_true_is_false. intros Hz.
    apply Qeq_bool_eq in Hz. rewrite py_sum_Qsum in Hz.
    assert (0 < Qsum (map (λ item : Z * bool,
              fmul (of_int item.1) (if item.2 then lit_1_1 else lit_0_9)) l))%Q;
      [|simpl in *; lra].
    apply Qsum_pos; [by destruct l|].
    apply Forall_fmap. eapply Forall_impl; [exact Hpos|].
    intros [n b] Hn. simpl in *. apply of_int_pos in Hn.
    destruct b; nra.
Qed.


(** ** No species left, and species without members *)

Section degenerate_feeds.
Context {F G Obj W : Type} `{PyFloat F} `{Collaborators F G Obj W}.

Abbreviation st := (state F G W).

Lemma surviving_all_stagnant (feed : list (Z * Species G * bool)) :
  Forall (λ item, item.2 = true) feed → surviving feed = [].
Proof.
  induction 1 as [|[[sid s] stag] feed Hstag _ IH]; [done|].
  simpl in Hstag. subst stag. exact IH.
Qed.

(** C7: when the stagnation scheme classifies every species of the species
    set as stagnant, [reproduce] raises nothing: it returns the empty
    population [[]] and leaves the species dict empty, having reported each
    stagnant species and issued no identifier. *)
Theorem reproduce_all_stagnant self fuel pop_size (t : st) :
  Forall (λ item, item.2 = true) (feed_of t) →
  reproduce self fuel pop_size t
  = Ok (PopList [])
       (set_species ∅ (add_reports (stagnant_reports (feed_of t)) (fed t))).
Proof.
  intros Hall. rewrite reproduce_unfold, bind_unfold. unfold fitness_pass.
  rewrite fitness_loop_returns.
  - rewrite (surviving_all_stagnant _ Hall). reflexivity.
  - intros sid s Hin. rewrite (surviving_all_stagnant _ Hall) in Hin.
    by apply elem_of_nil in Hin.
Qed.

(** C10: the adjusted fitness divides by the number of members, so a
    surviving species without members makes [reproduce] raise
    ZeroDivisionError: freedom from division by zero requires every species
    the stagnation scheme reports as active to have a member. *)
Theorem reproduce_empty_species self fuel pop_size (t : st) sid s :
  (sid, s, false) ∈ feed_of t →
  members s = [] →
  ∃ es, Forall (λ e, ∃ s', e = species_stagnant s') es ∧
        reproduce self fuel pop_size t
        = Raise ZeroDivisionError (add_reports es (fed t)).
Proof.
  intros Hin Hnil. rewrite reproduce_unfold, bind_unfold. unfold fitness_pass.
  destruct (fitness_loop_raises (feed_of t) (0, [], lit_0_0) (fed t))
    as (es & Hes & ->); [|by eauto].
  exists sid, s. by rewrite elem_of_surviving.
Qed.

(** *** [__init__] *)

Lemma create_loop_returns (n : nat) :
  ∀ (new_genomes : gmap Z G) (t : st),
    (∀ k, k ∈ dom new_genomes → k < genome_indexer t) →
    returns (create_loop n new_genomes) t (λ d t',
      size d = (size new_genomes + n)%nat ∧
      genome_indexer t' = genome_indexer t + Z.of_nat n ∧
      (∀ k, k ∈ dom d ↔
            k ∈ dom new_genomes ∨ genome_indexer t ≤ k < genome_indexer t') ∧
      (∀ k, genome_indexer t ≤ k < genome_indexer t' →
            ancestors t' !! k = Some []) ∧
      (∀ k, k < genome_indexer t → ancestors t' !! k = ancestors t !! k)).
Proof.
  induction n as [|n IH]; intros d t Hd.
  - simpl. apply returns_ret. split; [lia|]. split; [lia|].
    split; [|split; [lia|done]]. intros k. split; [auto|]. intros [?|?]; [done|lia].
  - simpl. apply returns_bind, returns_get_next.
    apply returns_bind, returns_call. intros g w _.
    apply returns_bind, returns_modify.
    assert (genome_indexer t ∉ dom d) as Hfresh.
    { intros Hk. apply Hd in Hk. lia. }
    eapply returns_mono.
    + apply IH. intros k. rewrite dom_insert. simpl.
      rewrite elem_of_union, elem_of_singleton.
      intros [->|Hk]; [lia|]. apply Hd in Hk. lia.
    + simpl. intros d' t' (Hsize & Hgi & Hdom & Hnew & Hold).
      split; [|split; [|split; [|split]]].
      * rewrite Hsize, map_size_insert_None; [lia|]. by apply not_elem_of_dom.
      * lia.
      * intros k. rewrite Hdom, dom_insert, elem_of_union, elem_of_singleton.
        split.
        -- intros [[->|Hk]|Hk]; [right; lia|by left|right; lia].
        -- intros [Hk|Hk]; [by left; right|].
           destruct (decide (k = genome_indexer t)) as [->|Hne];
             [by left; left|right; lia].
      * intros k Hk. destruct (decide (k = genome_indexer t)) as [->|Hne].
        -- rewrite Hold by lia. by rewrite lookup_insert_eq.
        -- apply Hnew. lia.
      * intros k Hk. rewrite Hold by lia. by rewrite lookup_insert_ne by lia.
Qed.

(** [create_new count] makes [count] genomes under the next [count]
    identifiers and records each with no parents. *)
Lemma create_new_returns (count : Z) (t : st) :
  returns (create_new count) t (λ d t',
    size d = Z.to_nat count ∧
    genome_indexer t' = genome_indexer t + Z.max count 0 ∧
    (∀ k, k ∈ dom d ↔ genome_indexer t ≤ k < genome_indexer t') ∧
    (∀ k, k ∈ dom d → ancestors t' !! k = Some [])).
Proof.
  unfold create_new. eapply returns_mono.
  - apply create_loop_returns. intros k. by rewrite dom_empty, elem_of_empty.
  - simpl. intros d t' (Hsize & Hgi & Hdom & Hnew & _).
    assert (∀ k, k ∈ dom d ↔ genome_indexer t ≤ k < genome_indexer t') as Hd.
    { intros k. rewrite Hdom, dom_empty, elem_of_empty. tauto. }
    split; [by rewrite Hsize, map_size_empty|]. split; [lia|].
    split; [done|]. intros k Hk. by apply Hnew, Hd.
Qed.

(** C8 (as amended): [__init__] checks no range. For every integer
    [elitism] and every float [survival_threshold] the configuration gives,
    negative or out of (0, 1] as they may be, construction succeeds and keeps
    the two values as they are, with a fresh indexer starting at 1 and no
    ancestors; [create_new] can then be called and makes the genomes asked
    for. *)
Theorem init_accepts_any_configuration (e : Z) (x : F) (count : Z) (t : st) :
  ∃ t1, init (Build_params (Some e) (Some x)) t
        = Ok (Build_DefaultReproduction e x) t1 ∧
        genome_indexer t1 = 1 ∧ ancestors t1 = ∅ ∧
        returns (create_new count) t1 (λ d t2,
          size d = Z.to_nat count ∧
          ∀ k, k ∈ dom d ↔ 1 ≤ k < 1 + Z.max count 0).
Proof.
  eexists. split; [reflexivity|]. split; [done|]. split; [done|].
  eapply returns_mono; [apply create_new_returns|].
  simpl. intros d t2 (Hsize & Hgi & Hdom & _). split; [done|].
  intros k. rewrite Hdom, Hgi. done.
Qed.

(** *** The breeding pool *)

(** C6 (as amended): the breeding pool is the first
    [max(ceil(survival_threshold * n), 2)] of the [n] sorted members, as far
    as there are that many: it has [min(n, max(ceil, 2))] candidates, so at
    least 2 whenever the species has 2 members or more, whatever the
    threshold gives, and all the members of a smaller species. *)
Theorem breeding_pool_size (self : DefaultReproduction F)
    (old_members : list (Z * G)) (c : Z) :
  py_ceil (fmul (survival_threshold self)
                (of_int (Z.of_nat (length old_members)))) = inr c →
  ∃ pool, breeding_pool self old_members = inr pool ∧
          pool = take (Z.to_nat (Z.max c 2)) old_members ∧
          length pool = (length old_members `min` Z.to_nat (Z.max c 2))%nat ∧
          ((2 ≤ length old_members)%nat → (2 ≤ length pool)%nat) ∧
          ((length old_members ≤ 1)%nat → pool = old_members).
Proof.
  intros Hc. unfold breeding_pool. rewrite Hc. eexists. split; [reflexivity|].
  split; [reflexivity|]. rewrite length_take. split; [lia|]. split; [lia|].
  intros Hlen. apply take_ge. lia.
Qed.

End degenerate_feeds.

(** ** Sorting, elites and the new population *)

Lemma insert_items_snoc {G} (d : gmap Z G) (l : list (Z * G)) (x : Z * G) :
  insert_items d (l ++ [x]) = <[x.1 := x.2]> (insert_items d l).
Proof. unfold insert_items. by rewrite foldl_app. Qed.

Lemma insert_items_cons {G} (d : gmap Z G) (l : list (Z * G)) (x : Z * G) :
  insert_items d (x :: l) = insert_items (<[x.1 := x.2]> d) l.
Proof. reflexivity. Qed.

Lemma insert_items_other {G} (l : list (Z * G)) :
  ∀ (d : gmap Z G) (k : Z), k ∉ l.*1 → insert_items d l !! k = d !! k.
Proof.
  induction l as [|[i m] l IH]; intros d k Hk; [done|].
  rewrite insert_items_cons, IH.
  - simpl. apply lookup_insert_ne. intros ->. apply Hk. simpl. left.
  - intros Hin. apply Hk. simpl. by right.
Qed.

Lemma insert_items_lookup {G} (l : list (Z * G)) :
  ∀ (d : gmap Z G) (i : Z) (m : G),
    NoDup l.*1 → (i, m) ∈ l → insert_items d l !! i = Some m.
Proof.
  induction l as [|[j x] l IH]; intros d i m Hnd Hin.
  - by apply elem_of_nil in Hin.
  - simpl in Hnd. apply NoDup_cons in Hnd as [Hj Hnd].
    rewrite insert_items_cons. apply elem_of_cons in Hin as [Heq|Hin].
    + simplify_eq. rewrite insert_items_other by done. simpl.
      apply lookup_insert_eq.
    + by apply IH.
Qed.

Lemma insert_items_dom {G} (l : list (Z * G)) :
  ∀ (d : gmap Z G) (k : Z), k ∈ dom (insert_items d l) ↔ k ∈ dom d ∨ k ∈ l.*1.
Proof.
  induction l as [|[j x] l IH]; intros d k.
  - simpl. rewrite elem_of_nil. tauto.
  - rewrite insert_items_cons, IH, dom_insert, elem_of_union, elem_of_singleton.
    simpl. rewrite elem_of_cons. tauto.
Qed.

Lemma insert_items_size {G} (l : list (Z * G)) :
  ∀ d : gmap Z G,
    NoDup l.*1 → (∀ k, k ∈ l.*1 → k ∉ dom d) →
    size (insert_items d l) = (size d + length l)%nat.
Proof.
  induction l as [|[j x] l IH]; intros d Hnd Hfresh.
  - simpl. lia.
  - simpl in Hnd. apply NoDup_cons in Hnd as [Hj Hnd].
    rewrite insert_items_cons, IH; [|done|].
    + rewrite map_size_insert_None; [simpl; lia|].
      apply not_elem_of_dom, Hfresh. simpl. left.
    + intros k Hk. rewrite dom_insert, elem_of_union, elem_of_singleton.
      intros [->|Hd]; [done|]. revert Hd. apply Hfresh. simpl. by right.
Qed.

Section sorting.
Context {A F : Type} `{PyFloat F}.

Lemma insert_desc_perm (key : A → F) (x : A) (l : list A) :
  insert_desc key x l ≡ₚ x :: l.
Proof.
  induction l as [|y l IH]; simpl; [done|].
  destruct (flt (key x) (key y)); [|done].
  rewrite IH. apply Permutation_swap.
Qed.

Lemma sort_desc_perm (key : A → F) (l : list A) : sort_desc key l ≡ₚ l.
Proof.
  induction l as [|x l IH]; simpl; [done|].
  by rewrite insert_desc_perm, IH.
Qed.

Lemma sort_desc_length (key : A → F) (l : list A) :
  length (sort_desc key l) = length l.
Proof. by rewrite sort_desc_perm. Qed.

Lemma elem_of_sort_desc (key : A → F) (l : list A) (x : A) :
  x ∈ sort_desc key l ↔ x ∈ l.
Proof. by rewrite sort_desc_perm. Qed.

Lemma insert_desc_ext (key key' : A → F) (x : A) (l : list A) :
  key x = key' x → (∀ y, y ∈ l → key y = key' y) →
  insert_desc key x l = insert_desc key' x l.
Proof.
  intros Hx. induction l as [|y l IH]; intros Hl; simpl; [done|].
  rewrite Hx, (Hl y) by left. rewrite IH; [done|].
  intros z Hz. apply Hl. by right.
Qed.

(** The order depends on the keys of the sorted items only. *)
Lemma sort_desc_ext (key key' : A → F) (l : list A) :
  (∀ y, y ∈ l → key y = key' y) → sort_desc key l = sort_desc key' l.
Proof.
  induction l as [|x l IH]; intros Hl; simpl; [done|].
  rewrite IH by (intros; apply Hl; by right).
  apply insert_desc_ext; [apply Hl; left|].
  intros y Hy. apply elem_of_sort_desc in Hy. apply Hl. by right.
Qed.

End sorting.


(** ** The breeding loop *)

Lemma nth_elem_of {A} (l : list A) (d : A) : ∀ i : nat, d ∈ l → nth i l d ∈ l.
Proof.
  intros i Hd. destruct (decide (i < length l)%nat) as [Hlt|Hge].
  - apply list_elem_of_In, nth_In. lia.
  - rewrite nth_overflow by lia. done.
Qed.

Section breeding.
Context {F G Obj W : Type} `{PyFloat F} `{Collaborators F G Obj W}.

Abbreviation st := (state F G W).

Lemma returns_random_choice {A} (seq : list A) (t : st) (Q : A → st → Prop) :
  seq ≠ [] →
  (∀ x, x ∈ seq →
        Q x (set_world (random_index (length seq) (world t)).2 t)) →
  returns (random_choice seq) t Q.
Proof.
  intros Hne HQ. destruct seq as [|x seq]; [done|].
  unfold random_choice. apply returns_bind, returns_call. intros i w Heq.
  apply returns_ret. rewrite Heq in HQ. apply HQ, nth_elem_of. left.
Qed.

Lemma breed_unfold fuel spawn (old_members : list (Z * G)) new_population :
  breed fuel spawn old_members new_population =
  if 0 <? spawn then
    match fuel with
    | O => timeout
    | S fuel' =>
        '(parent1_id, parent1) ← random_choice old_members;
        '(parent2_id, parent2) ← random_choice old_members;
        gid ← get_next;
        child ← call (crossover parent1 parent2 gid);
        _ ← call (λ w, ((), mutate child w));
        _ ← modify (λ s : st,
              set_ancestors (<[gid := [parent1_id; parent2_id]]> (ancestors s)) s);
        breed fuel' (spawn - 1) old_members (<[gid := child]> new_population)
    end
  else mret new_population.
Proof. by destruct fuel. Qed.

Variable R : W → W → Prop.
Hypothesis HR : kept_by_breeding R.

Lemma breed_returns (pool : list (Z * G)) (fuel : nat) :
  pool ≠ [] →
  ∀ spawn (d : gmap Z G) (t : st),
    (Z.to_nat spawn ≤ fuel)%nat →
    (∀ k, k ∈ dom d → k < genome_indexer t) →
    returns (breed fuel spawn pool d) t (bred R pool d t (Z.max spawn 0)).
Proof.
  intros Hpool.
  assert (∀ fuel spawn (d : gmap Z G) (t : st),
            spawn ≤ 0 →
            returns (breed fuel spawn pool d) t (bred R pool d t (Z.max spawn 0)))
    as Hstop.
  { intros fuel' spawn d t Hneg. rewrite breed_unfold.
    destruct (Z.ltb_spec 0 spawn) as [Hpos|_]; [lia|].
    apply returns_ret. replace (Z.max spawn 0) with 0 by lia.
    unfold bred. rewrite Z.add_0_r. repeat split; auto; try lia.
    - apply HR.
    - intros [?|?]; [done|lia]. }
  induction fuel as [|fuel IH]; intros spawn d t Hfuel Hd;
    destruct (Z.le_gt_cases spawn 0) as [Hneg|Hpos]; try (by apply Hstop);
    [lia|].
  rewrite breed_unfold. destruct (Z.ltb_spec 0 spawn) as [_|Hneg]; [|lia].
  - apply returns_bind, returns_random_choice; [done|]. intros [p1id p1] Hp1.
    apply returns_bind, returns_random_choice; [done|]. intros [p2id p2] Hp2.
    simpl. apply returns_bind, returns_get_next.
    apply returns_bind, returns_call. intros child w3 Hcross.
    apply returns_bind, returns_call. intros [] w4 Hmut.
    apply returns_bind, returns_modify.
    eapply returns_mono.
    { apply (IH (spawn - 1)); [lia|]. simpl. intros k.
      rewrite dom_insert, elem_of_union, elem_of_singleton.
      intros [->|Hk]; [lia|]. apply Hd in Hk. lia. }
    simpl. intros d' t' (Hgi & Hsp & Hrep & HRw & Hold & Hdom & Hsize & Hanc & Hnew).
    simpl in *. replace (Z.max (spawn - 1) 0) with (spawn - 1) in * by lia.
    replace (Z.max spawn 0) with spawn by lia.
    assert (genome_indexer t ∉ dom d) as Hfresh.
    { intros Hk. apply Hd in Hk. lia. }
    unfold bred. split; [lia|]. split; [done|]. split; [done|].
    split; [|split; [|split; [|split; [|split]]]].
    + set (w1 := (random_index (length pool) (world t)).2) in *.
      set (w2 := (random_index (length pool) w1).2) in *.
      assert (R (world t) w1) as H1 by apply HR.
      assert (R w1 w2) as H2 by apply HR.
      assert (R w2 w4) as H3.
      { pose proof (kept_child R HR p1 p2 (genome_indexer t) w2) as Hc.
        rewrite Hcross in Hc. simpl in Hc. by simplify_eq. }
      eapply (kept_trans R HR); [|exact HRw].
      eapply (kept_trans R HR); [exact H1|].
      eapply (kept_trans R HR); [exact H2|exact H3].
    + intros k Hk. rewrite Hold by lia. apply lookup_insert_ne. lia.
    + intros k. rewrite Hdom, dom_insert, elem_of_union, elem_of_singleton.
      split.
      * intros [[->|Hk]|Hk]; [right; lia|by left|right; lia].
      * intros [Hk|Hk]; [by left; right|].
        destruct (decide (k = genome_indexer t)) as [->|Hne];
          [by left; left|right; lia].
    + rewrite Hsize, map_size_insert_None by (by apply not_elem_of_dom). lia.
    + intros k Hk. rewrite Hanc by lia. apply lookup_insert_ne. lia.
    + intros k Hk. destruct (decide (k = genome_indexer t)) as [->|Hne].
      * rewrite Hanc by lia. rewrite lookup_insert_eq.
        exists p1id, p2id. split; [done|].
        split; apply list_elem_of_fmap; [by exists (p1id, p1)|by exists (p2id, p2)].
      * apply Hnew. lia.
Qed.

(** *** One species *)

Lemma transfer_elites_eq (self : DefaultReproduction F) (l : list (Z * G))
    (d : gmap Z G) (spawn : Z) :
  transfer_elites self l d spawn
  = (insert_items d (elites self l), spawn - Z.of_nat (length (elites self l))).
Proof.
  unfold transfer_elites, elites. destruct (0 <? elitism self).
  - generalize (take (Z.to_nat (elitism self)) l). intros el.
    revert d spawn. induction el as [|[i m] el IH]; intros d spawn.
    + simpl. f_equal. lia.
    + simpl foldl. rewrite IH, insert_items_cons. simpl. f_equal. lia.
  - simpl. f_equal. lia.
Qed.

Lemma elites_length (self : DefaultReproduction F) (l : list (Z * G)) :
  length (elites self l)
  = if 0 <? elitism self then (Z.to_nat (elitism self) `min` length l)%nat else 0%nat.
Proof. unfold elites. destruct (0 <? elitism self); [apply length_take|done]. Qed.

Lemma elites_subseteq (self : DefaultReproduction F) (l : list (Z * G)) :
  elites self l ⊆ l.
Proof.
  unfold elites. destruct (0 <? elitism self); [apply subseteq_take|].
  intros x Hx. by apply elem_of_nil in Hx.
Qed.

Lemma elites_NoDup (self : DefaultReproduction F) (l : list (Z * G)) :
  NoDup l.*1 → NoDup (elites self l).*1.
Proof.
  unfold elites. destruct (0 <? elitism self); [|constructor].
  rewrite fmap_take. intros Hnd. eapply sublist_NoDup; [done|apply sublist_take].
Qed.

Lemma ranked_keys (w : W) (s : Species G) : (ranked w s).*1 ≡ₚ (members s).*1.
Proof. unfold ranked. by rewrite sort_desc_perm. Qed.

Lemma elite_items_length self w (item : Z * (Z * Species G * F)) :
  length (elite_items self w item) = elite_count self item.
Proof.
  unfold elite_items, elite_count. destruct (retained self item.1); [|done].
  rewrite elites_length. unfold ranked. by rewrite sort_desc_length.
Qed.

Lemma elite_items_keys self w (item : Z * (Z * Species G * F)) k :
  k ∈ (elite_items self w item).*1 → k ∈ (members item.2.1.2).*1.
Proof.
  unfold elite_items. destruct (retained self item.1).
  - intros Hk. rewrite <- (ranked_keys w).
    apply list_elem_of_fmap in Hk as (x & -> & Hx).
    apply list_elem_of_fmap_2. by apply (elites_subseteq self).
  - intros Hk. by apply elem_of_nil in Hk.
Qed.

Lemma elite_items_NoDup self w (item : Z * (Z * Species G * F)) :
  NoDup (members item.2.1.2).*1 → NoDup (elite_items self w item).*1.
Proof.
  intros Hnd. unfold elite_items. destruct (retained self item.1); [|constructor].
  apply elites_NoDup. by rewrite ranked_keys.
Qed.

Lemma elite_count_le self (item : Z * (Z * Species G * F)) :
  retained self item.1 = true →
  Z.of_nat (elite_count self item) ≤ allotted self item.1.
Proof.
  unfold elite_count, retained, allotted. intros Hret. rewrite Hret.
  apply Z.ltb_lt in Hret. destruct (Z.ltb_spec 0 (elitism self)); lia.
Qed.

Context `{!ExactFloat F}.

Lemma reproduce_species_returns self fuel (d : gmap Z G)
    (item : Z * (Z * Species G * F)) (t : st) :
  members item.2.1.2 ≠ [] →
  NoDup (members item.2.1.2).*1 →
  (∀ k, k ∈ (members item.2.1.2).*1 → k < genome_indexer t ∧ k ∉ dom d) →
  (∀ k, k ∈ dom d → k < genome_indexer t) →
  (offspring_count self item ≤ fuel)%nat →
  returns (reproduce_species self fuel d item) t (λ d' t',
    genome_indexer t'
    = genome_indexer t + Z.of_nat (offspring_count self item) ∧
    species t'
    = (if retained self item.1
       then <[item.2.1.1 := Build_Species []]> (species t) else species t) ∧
    reporters t' = reporters t ∧
    R (world t) (world t') ∧
    (∀ k, k < genome_indexer t →
          d' !! k = insert_items d (elite_items self (world t) item) !! k) ∧
    (∀ k, k ∈ dom d' ↔
          k ∈ dom d ∨ k ∈ (elite_items self (world t) item).*1 ∨
          genome_indexer t ≤ k < genome_indexer t') ∧
    size d' = (size d + elite_count self item + offspring_count self item)%nat).
Proof.
  destruct item as [spawn0 [[sid s] sfitness]]. simpl.
  intros Hne Hnd Hkeys Hd Hfuel.
  pose proof (elite_items_length self (world t) (spawn0, (sid, s, sfitness))) as Hlen.
  pose proof (elite_count_le self (spawn0, (sid, s, sfitness))) as Hle.
  pose proof (elite_items_NoDup self (world t) (spawn0, (sid, s, sfitness)) Hnd) as Hnde.
  pose proof (elite_items_keys self (world t) (spawn0, (sid, s, sfitness))) as Hsub.
  unfold offspring_count in *. unfold elite_items in *. simpl in *.
  unfold reproduce_species. fold (allotted self spawn0).
  unfold retained in *. destruct (Z.ltb_spec 0 (allotted self spawn0)) as [Hpos|Hneg].
  2:{ destruct (Z.leb_spec (allotted self spawn0) 0); [|lia].
      apply returns_ret. rewrite Z.add_0_r, !Nat.add_0_r.
      repeat split; auto; try apply HR.
      - intros [?|[Hk|?]]; [done| |lia]. by apply elem_of_nil in Hk.
      - rewrite <- Hlen. simpl. lia. }
  destruct (Z.leb_spec (allotted self spawn0) 0); [lia|].
  specialize (Hle eq_refl).
  apply returns_bind, returns_modify. apply returns_bind. unfold returns at 1.
  simpl. rewrite transfer_elites_eq.
  change (sort_desc (λ x : Z * G, fitness (deref (world t) x.2)) (members s))
    with (ranked (world t) s).
  set (el := elites self (ranked (world t) s)) in *.
  assert (∀ k, k ∈ dom (insert_items d el) → k < genome_indexer t) as Hd1.
  { intros k. rewrite insert_items_dom. intros [Hk|Hk]; [by apply Hd|].
    by apply Hkeys, Hsub. }
  assert (size (insert_items d el) = (size d + length el)%nat) as Hsize1.
  { apply insert_items_size; [done|]. intros k Hk. by apply Hkeys, Hsub. }
  rewrite Hlen in *.
  destruct (Z.leb_spec (allotted self spawn0 - Z.of_nat (elite_count self (spawn0, (sid, s, sfitness)))) 0)
    as [Hzero|Hmore].
  { apply returns_ret. simpl.
    replace (Z.to_nat (allotted self spawn0 -
               Z.of_nat (elite_count self (spawn0, (sid, s, sfitness))))) with 0%nat by lia.
    rewrite Z.add_0_r, Nat.add_0_r. repeat split; auto; try apply HR.
    - intros Hk. apply insert_items_dom in Hk. tauto.
    - intros [Hk|[Hk|Hk]]; [| |lia]; apply insert_items_dom; tauto. }
  destruct (py_ceil_defined
              (fmul (survival_threshold self)
                    (of_int (Z.of_nat (length (ranked (world t) s))))))
    as [c Hc].
  apply returns_bind. unfold breeding_pool. rewrite Hc. apply returns_ret.
  eapply returns_mono.
  { apply (breed_returns (take (Z.to_nat (Z.max c 2)) (ranked (world t) s))).
    - intros Hnil. apply take_nil_inv in Hnil as [?|Hnil]; [lia|].
      apply (f_equal length) in Hnil. unfold ranked in Hnil.
      rewrite sort_desc_length in Hnil. by destruct (members s).
    - exact Hfuel.
    - exact Hd1. }
  simpl. intros d' t' (Hgi & Hsp & Hrep & HRw & Hold & Hdom & Hsize & _).
  simpl in *.
  replace (Z.max (allotted self spawn0 -
             Z.of_nat (elite_count self (spawn0, (sid, s, sfitness)))) 0)
    with (allotted self spawn0 -
             Z.of_nat (elite_count self (spawn0, (sid, s, sfitness)))) in * by lia.
  split; [lia|]. split; [done|]. split; [done|]. split; [done|].
  split; [done|]. split.
  - intros k. rewrite Hdom, insert_items_dom. rewrite Hgi. tauto.
  - rewrite Hsize, Hsize1. lia.
Qed.

End breeding.

(** ** The loop over the species *)

Section generation.
Context {F G Obj W : Type} `{PyFloat F} `{Collaborators F G Obj W}.
Context `{!ExactFloat F}.

Abbreviation st := (state F G W).

Variable R : W → W → Prop.
Hypothesis HR : kept_by_breeding R.

Lemma elem_of_member_keys (items : list (Z * (Z * Species G * F))) k :
  k ∈ member_keys items ↔ ∃ item, item ∈ items ∧ k ∈ (members item.2.1.2).*1.
Proof.
  unfold member_keys. rewrite list_elem_of_bind. split; intros (x & ? & ?); eauto.
Qed.

Lemma member_keys_app (l1 l2 : list (Z * (Z * Species G * F))) :
  member_keys (l1 ++ l2) = member_keys l1 ++ member_keys l2.
Proof. apply bind_app. Qed.

Lemma member_keys_cons (x : Z * (Z * Species G * F)) l :
  member_keys (x :: l) = (members x.2.1.2).*1 ++ member_keys l.
Proof. reflexivity. Qed.

Lemma rebuilt_snoc self sp (items : list (Z * (Z * Species G * F))) x :
  rebuilt self sp (items ++ [x])
  = if retained self x.1
    then <[x.2.1.1 := Build_Species []]> (rebuilt self sp items)
    else rebuilt self sp items.
Proof. unfold rebuilt. by rewrite foldl_app. Qed.

Lemma species_loop_returns self fuel (items : list (Z * (Z * Species G * F)))
    (t : st) :
  Forall (λ item, members item.2.1.2 ≠ []) items →
  NoDup (member_keys items) →
  (∀ k, k ∈ member_keys items → k < genome_indexer t) →
  Forall (λ item, (offspring_count self item ≤ fuel)%nat) items →
  returns (for_each items ∅ (reproduce_species self fuel)) t
          (generation R self items t).
Proof.
  intros Hne Hnd Hlt Hfuel.
  pose (I := λ (pre rest : list (Z * (Z * Species G * F))) (d : gmap Z G) (t' : st),
          pre ++ rest = items ∧ generation R self pre t d t').
  cut (returns (for_each items ∅ (reproduce_species self fuel)) t (I ([] ++ items) [])).
  { intros Hret. eapply returns_mono; [exact Hret|]. by intros d t' [_ Hgen]. }
  apply returns_for_each_split.
  { split; [done|]. unfold generation, total_offspring, total_elites. simpl.
    rewrite Z.add_0_r, map_size_empty. repeat split; auto; try apply HR.
    - intros k. rewrite dom_empty. intros Hk. by apply elem_of_empty in Hk.
    - intros item Hitem. by apply elem_of_nil in Hitem. }
  intros pre x rest d t1 [Hitems Hgen]. subst I. cbv beta.
  destruct Hgen as (Hgi & Hsize & Hsp & Hrep & HRw & Hdom & Hel).
  assert (x ∈ items) as Hx.
  { rewrite <- Hitems. apply elem_of_app. right. left. }
  rewrite <- Hitems, member_keys_app, member_keys_cons in Hnd.
  apply NoDup_app in Hnd as (_ & Hpre & Hnd).
  apply NoDup_app in Hnd as (Hndx & _ & _).
  assert (∀ k, k ∈ (members x.2.1.2).*1 → k < genome_indexer t) as Hxlt.
  { intros k Hk. apply Hlt, elem_of_member_keys. eauto. }
  assert (∀ k, k ∈ (members x.2.1.2).*1 → k ∉ dom d) as Hxfresh.
  { intros k Hk Hd. apply Hdom in Hd as [Hd|Hd].
    - apply (Hpre k Hd). apply elem_of_app. by left.
    - apply Hxlt in Hk. lia. }
  eapply returns_mono.
  { apply (reproduce_species_returns R HR self fuel d x t1).
    - by eapply (proj1 (Forall_forall _ _) Hne).
    - done.
    - intros k Hk. split; [|by apply Hxfresh]. apply Hxlt in Hk. lia.
    - intros k Hk. apply Hdom in Hk as [Hk|Hk]; [|lia].
      assert (k < genome_indexer t); [|lia].
      apply Hlt. rewrite <- Hitems, member_keys_app. apply elem_of_app. by left.
    - by eapply (proj1 (Forall_forall _ _) Hfuel). }
  simpl. intros d' t' (Hgi' & Hsp' & Hrep' & HRw' & Hold & Hdom' & Hsize').
  split; [by rewrite <- app_assoc|].
  unfold generation, total_offspring, total_elites.
  rewrite !sum_list_with_app. simpl.
  fold (total_offspring self pre) (total_elites self pre).
  split; [lia|]. split; [lia|]. split; [by rewrite rebuilt_snoc, Hsp', Hsp|].
  split; [congruence|]. split; [by eapply (kept_trans R HR)|]. split.
  - intros k Hk. rewrite member_keys_app, elem_of_app.
    apply Hdom' in Hk as [Hk|[Hk|Hk]].
    + apply Hdom in Hk as [Hk|Hk]; [by left; left|right; lia].
    + left. right. apply elem_of_member_keys. exists x.
      split; [left|]. by eapply elite_items_keys.
    + right. lia.
  - intros item Hitem. apply elem_of_app in Hitem as [Hitem|Hitem].
    + destruct (Hel item Hitem) as (w & HRw0 & Hw). exists w. split; [done|].
      intros i m Him. specialize (Hw i m Him).
      assert (i ∈ (members item.2.1.2).*1) as Hi.
      { apply (elite_items_keys self w). apply list_elem_of_fmap. by exists (i, m). }
      assert (i ∈ member_keys pre) as Hipre by (apply elem_of_member_keys; eauto).
      rewrite Hold.
      * rewrite insert_items_other; [done|]. intros Hix.
        apply elite_items_keys in Hix. apply (Hpre i Hipre).
        apply elem_of_app. by left.
      * assert (i < genome_indexer t); [|lia]. apply Hlt.
        rewrite <- Hitems, member_keys_app. apply elem_of_app. by left.
    + apply list_elem_of_singleton in Hitem as ->.
      exists (world t1). split; [done|]. intros i m Him.
      rewrite Hold.
      * apply insert_items_lookup; [|done]. by apply elite_items_NoDup.
      * assert (i < genome_indexer t); [|lia]. apply Hxlt.
        apply (elite_items_keys self (world t1)).
        apply list_elem_of_fmap. by exists (i, m).
Qed.

End generation.

(** ** A whole call *)

Section whole_call.
Context {F G Obj W : Type} `{PyFloat F} `{Collaborators F G Obj W}.
Context `{!ExactFloat F}.

Abbreviation st := (state F G W).

Lemma list_comp_round (norm : F) (raws : list F) (t : st) :
  ∃ spawns,
    Forall2 (λ z raw, py_round (fmul raw norm) = inr z) spawns raws ∧
    list_comp (λ n, lift_exn (py_round (fmul n norm))) raws t = Ok spawns t.
Proof.
  induction raws as [|raw raws (spawns & Hall & Hrun)].
  - exists []. split; [constructor|reflexivity].
  - destruct (py_round_defined (fmul raw norm)) as [z Hz].
    exists (z :: spawns). split; [by constructor|].
    simpl. rewrite bind_unfold, Hz. simpl. rewrite bind_unfold, Hrun. reflexivity.
Qed.

Lemma raw_spawn_shape avg (sf : list (Z * Species G * F)) :
  map (raw_spawn avg) sf
  = map (λ item : Z * bool,
           fmul (of_int item.1) (if item.2 then lit_1_1 else lit_0_9))
        (map (λ x : Z * Species G * F,
                (Z.of_nat (length (members x.1.2)), flt avg x.2)) sf).
Proof.
  rewrite map_map. apply map_ext. intros [[sid s] x]. simpl.
  by destruct (flt avg x).
Qed.

Lemma normalize_returns pop_size avg (sf : list (Z * Species G * F)) (t : st) :
  sf ≠ [] →
  Forall (λ x, members x.1.2 ≠ []) sf →
  ∃ spawns,
    Forall2 (λ z raw,
               py_round (fmul raw (fquot (of_int pop_size)
                                         (py_sum (map (raw_spawn avg) sf))))
               = inr z)
            spawns (map (raw_spawn avg) sf) ∧
    normalize pop_size (map (raw_spawn avg) sf) t = Ok spawns t.
Proof.
  intros Hne Hmem. unfold normalize, int_div.
  assert (fzero (py_sum (map (raw_spawn avg) sf)) = false) as ->.
  { rewrite raw_spawn_shape. apply spawn_total_nonzero.
    - by destruct sf.
    - apply Forall_fmap. eapply Forall_impl; [exact Hmem|].
      intros [[sid s] x] Hs. simpl in *. destruct (members s); [done|simpl; lia]. }
  destruct (list_comp_round
              (fquot (of_int pop_size) (py_sum (map (raw_spawn avg) sf)))
              (map (raw_spawn avg) sf) t) as (spawns & Hall & Hrun).
  exists spawns. split; [done|]. rewrite bind_unfold. simpl. exact Hrun.
Qed.

Lemma member_keys_zip (spawns : list Z) (sv : list (Z * Species G)) (w : W) :
  length spawns = length sv →
  member_keys (zip spawns (scored w sv))
  = sv ≫= λ item : Z * Species G, (members item.2).*1.
Proof.
  revert spawns. induction sv as [|[sid s] sv IH]; intros [|z spawns] Hlen;
    try done.
  simpl in Hlen. unfold member_keys in *. simpl zip. rewrite !bind_cons.
  simpl. f_equal. apply IH. lia.
Qed.

Variable R : W → W → Prop.
Hypothesis HR : kept_by_breeding R.

(** With members in every surviving species, their keys distinct and issued
    before, a call that is given iterations enough returns the dict of the
    new generation. *)
Lemma reproduce_returns self pop_size (t : st) :
  surviving (feed_of t) ≠ [] →
  (∀ sid s, (sid, s) ∈ surviving (feed_of t) → members s ≠ []) →
  NoDup (survivor_keys t) →
  (∀ k, k ∈ survivor_keys t → k < genome_indexer t) →
  ∃ spawns,
    spawn_plan pop_size (survivors t) spawns ∧
    ∀ fuel,
      Forall (λ item, (offspring_count self item ≤ fuel)%nat)
             (zip spawns (survivors t)) →
      returns (reproduce self fuel pop_size) t (λ p t',
        ∃ d, p = PopDict d ∧
             generation R self (zip spawns (survivors t)) (planned t spawns) d t').
Proof.
  intros Hsv Hmem Hnd Hlt.
  assert (survivors t ≠ []) as Hsf.
  { unfold survivors, scored. by destruct (surviving (feed_of t)). }
  assert (Forall (λ x : Z * Species G * F, members x.1.2 ≠ []) (survivors t)) as Hsfm.
  { unfold survivors, scored. apply Forall_fmap, Forall_forall.
    intros [sid s] Hin. simpl. by eapply Hmem. }
  destruct (normalize_returns pop_size (average (survivors t)) (survivors t)
              (add_reports [info_avg_adjusted_fitness (average (survivors t))]
                 (add_reports (stagnant_reports (feed_of t)) (fed t))) Hsf Hsfm)
    as (spawns & Hplan & Hnorm).
  exists spawns. split; [exact Hplan|]. intros fuel Hfuel.
  assert (length spawns = length (surviving (feed_of t))) as Hlen.
  { apply Forall2_length in Hplan. rewrite Hplan, length_map.
    unfold survivors, scored. by rewrite length_map. }
  assert (Forall (λ item : Z * (Z * Species G * F), members item.2.1.2 ≠ [])
                 (zip spawns (survivors t))) as Hzip.
  { apply Forall_forall. intros [z [[sid s] x]] Hin. simpl.
    apply elem_of_zip_r in Hin.
    by eapply (proj1 (Forall_forall _ _) Hsfm (sid, s, x)). }
  unfold returns. rewrite reproduce_unfold, bind_unfold. unfold fitness_pass.
  rewrite fitness_loop_returns by done. fold (survivors t). cbv beta iota.
  change ([] ++ survivors t) with (survivors t). rewrite Z.add_0_l.
  destruct (Z.eqb_spec (Z.of_nat (length (surviving (feed_of t)))) 0) as [Hz|_].
  { destruct (surviving (feed_of t)); [done|simpl in Hz; lia]. }
  match goal with |- match ?m ?s with Ok a s' => @?Q a s' | _ => _ end =>
    change (returns m s Q) end.
  apply returns_bind. unfold returns at 1. rewrite div_int_returns.
  2:{ unfold survivors, scored. rewrite length_map.
      destruct (surviving (feed_of t)); [done|simpl; lia]. }
  fold (average (survivors t)).
  apply returns_bind, returns_report.
  apply returns_bind. unfold returns at 1. rewrite Hnorm.
  apply returns_bind, returns_report. apply returns_bind, returns_report.
  apply returns_bind, returns_modify. apply returns_bind.
  match goal with |- returns _ ?t1 _ =>
    replace t1 with (planned t spawns) end.
  2:{ unfold planned, add_reports, set_species. simpl. f_equal.
      by rewrite <- !app_assoc. }
  eapply returns_mono.
  { apply (species_loop_returns R HR self fuel); try done.
    - unfold survivors. by rewrite member_keys_zip.
    - intros k. unfold survivors. rewrite member_keys_zip by done. apply Hlt. }
  intros d t' Hgen. apply returns_ret. by exists d.
Qed.

End whole_call.

(** ** The size of the new population *)

Lemma max_list_with_bound {A} (f : A → nat) (l : list A) (n : nat) :
  (max_list_with f l ≤ n)%nat → Forall (λ x, (f x ≤ n)%nat) l.
Proof.
  induction l as [|x l IH]; simpl; intros Hmax; constructor; [lia|].
  apply IH. lia.
Qed.

Lemma max_le_sum_list_with {A} (f : A → nat) (l : list A) :
  (max_list_with f l ≤ sum_list_with f l)%nat.
Proof. induction l as [|x l IH]; simpl; lia. Qed.

Lemma kept_trivially `{Collaborators F G Obj W} :
  kept_by_breeding (λ _ _ : W, True).
Proof. by split. Qed.

Lemma zip_fst_length {A B} (l : list A) (k : list B) :
  length l = length k → map fst (zip l k) = l ∧ length (zip l k) = length k.
Proof.
  revert k. induction l as [|x l IH]; intros [|y k] Hlen; try done.
  simpl in Hlen. destruct (IH k) as [Hfst Hlen']; [lia|].
  simpl. by rewrite Hfst, Hlen'.
Qed.

Section contributions.
Context {F G Obj W : Type} `{PyFloat F} `{Collaborators F G Obj W}.

(** Elites and children of a species add up to its allotted amount. *)
Lemma contribution (self : DefaultReproduction F)
    (item : Z * (Z * Species G * F)) :
  (elite_count self item + offspring_count self item)%nat
  = Z.to_nat (Z.max (allotted self item.1) 0).
Proof.
  pose proof (elite_count_le self item) as Hle.
  unfold offspring_count. destruct (retained self item.1) eqn:Hret.
  - specialize (Hle eq_refl). unfold retained in Hret.
    apply Z.ltb_lt in Hret. lia.
  - unfold elite_count. rewrite Hret. unfold retained in Hret.
    apply Z.ltb_ge in Hret. lia.
Qed.


End contributions.

(** ** The elites *)

Lemma elem_of_zip_right {A B} (l : list A) (k : list B) (y : B) :
  length l = length k → y ∈ k → ∃ x, (x, y) ∈ zip l k.
Proof.
  revert k. induction l as [|x l IH]; intros [|y' k] Hlen Hy; try done.
  - by apply elem_of_nil in Hy.
  - apply elem_of_cons in Hy as [->|Hy].
    + exists x. simpl. left.
    + destruct (IH k) as [x' Hx']; [simpl in Hlen; lia|done|].
      exists x'. simpl. by right.
Qed.

Section elites.
Context {F G Obj W : Type} `{PyFloat F} `{Collaborators F G Obj W}.
Lemma preserved_kept (allocated : W → G → Prop) :
  heap_discipline allocated → kept_by_breeding (preserved allocated).
Proof.
  intros Hheap. split.
  - by intros w g Hg.
  - intros w1 w2 w3 H12 H23 g Hg. destruct (H12 g Hg) as [Hg2 Heq2].
    destruct (H23 g Hg2) as [Hg3 Heq3]. split; [done|congruence].
  - intros n w. apply (random_frame _ Hheap).
  - intros p1 p2 gid w g Hg.
    destruct (crossover_frame _ Hheap p1 p2 gid w) as [Hpres Hfresh].
    destruct (Hpres g Hg) as [Hg' Heq].
    destruct (mutate_frame _ Hheap (crossover p1 p2 gid w).1
                (crossover p1 p2 gid w).2 g Hg') as [Hg'' Heq'].
    split; [done|]. rewrite Heq'; [done|]. intros ->. by apply Hfresh.
Qed.

Lemma rebuilt_lookup self (items : list (Z * (Z * Species G * F))) :
  ∀ (sp : gmap Z (Species G)) (sid : Z),
    sp !! sid = Some (Build_Species []) ∨
    (∃ item, item ∈ items ∧ retained self item.1 = true ∧ item.2.1.1 = sid) →
    rebuilt self sp items !! sid = Some (Build_Species []).
Proof.
  induction items as [|x items IH]; intros sp sid Hsid.
  - destruct Hsid as [Hsid|(item & Hin & _)]; [done|]. by apply elem_of_nil in Hin.
  - change (rebuilt self sp (x :: items))
      with (rebuilt self (if retained self x.1
                          then <[x.2.1.1 := Build_Species []]> sp else sp) items).
    apply IH. destruct Hsid as [Hsid|(item & Hin & Hret & Hsid)].
    + left. destruct (retained self x.1); [|done].
      destruct (decide (x.2.1.1 = sid)) as [->|Hne].
      * apply lookup_insert_eq.
      * by rewrite lookup_insert_ne.
    + apply elem_of_cons in Hin as [->|Hin]; [|right; eauto].
      left. rewrite Hret, Hsid. apply lookup_insert_eq.
Qed.

(** Worlds that agree on the members of a species rank them alike. *)
Lemma ranked_preserved (allocated : W → G → Prop) (w w' : W) (s : Species G) :
  preserved allocated w w' →
  (∀ i m, (i, m) ∈ members s → allocated w m) →
  ranked w' s = ranked w s.
Proof.
  intros Hpres Halloc. unfold ranked. apply sort_desc_ext.
  intros [i m] Him. unfold by_fitness. simpl.
  by destruct (Hpres m (Halloc i m Him)) as [_ ->].
Qed.

End elites.

(** ** Termination *)

Lemma safe_ret {S A} (a : A) (s : S) (Q : A → S → Prop) :
  Q a s → safe (mret a) s Q.
Proof. done. Qed.

Lemma safe_raise {S A} (e : exn) (s : S) (Q : A → S → Prop) :
  safe (raise e) s Q.
Proof. done. Qed.

Lemma safe_bind {S A B} (m : M S A) (f : A → M S B) s Q :
  safe m s (λ a s', safe (f a) s' Q) → safe (m ≫= f) s Q.
Proof.
  unfold safe. rewrite bind_unfold. destruct (m s); done.
Qed.

Lemma safe_mono {S A} (m : M S A) s (Q Q' : A → S → Prop) :
  safe m s Q → (∀ a s', Q a s' → Q' a s') → safe m s Q'.
Proof.
  unfold safe. destruct (m s); [eauto | done | done].
Qed.

Lemma returns_safe {S A} (m : M S A) s (Q : A → S → Prop) :
  returns m s Q → safe m s Q.
Proof. unfold returns, safe. destruct (m s); done. Qed.

Lemma safe_lift_exn {S A} (r : exn + A) (s : S) (Q : A → S → Prop) :
  (∀ a, r = inr a → Q a s) → safe (lift_exn r) s Q.
Proof. intros HQ. destruct r as [e|a]; [done|]. by apply HQ. Qed.

Lemma safe_inv {S A} (m : M S A) s (Q : A → S → Prop) :
  safe m s Q →
  (∃ a s', m s = Ok a s' ∧ Q a s') ∨ (∃ e s', m s = Raise e s').
Proof.
  unfold safe. destruct (m s) as [a s'|e s'|]; [left|right|done]; eauto.
Qed.

Lemma safe_for_each_split {S A B} (body : B → A → M S B)
    (I : list A → list A → B → S → Prop) :
  ∀ l pre acc s,
    I pre l acc s →
    (∀ pre x l' acc s,
       I pre (x :: l') acc s → safe (body acc x) s (I (pre ++ [x]) l')) →
    safe (for_each l acc body) s (I (pre ++ l) []).
Proof.
  induction l as [|x l IH]; intros pre acc s HI Hbody; simpl.
  - apply safe_ret. by rewrite app_nil_r.
  - apply safe_bind. eapply safe_mono; [by apply Hbody|].
    intros acc' s' HI'. rewrite (cons_middle x pre l), app_assoc. by apply IH.
Qed.

Section termination.
Context {F G Obj W : Type} `{PyFloat F} `{Collaborators F G Obj W}.

Abbreviation st := (state F G W).

Lemma safe_random_choice {A} (seq : list A) (t : st) (Q : A → st → Prop) :
  (∀ x, Q x (set_world (random_index (length seq) (world t)).2 t)) →
  safe (random_choice seq) t Q.
Proof.
  intros HQ. destruct seq as [|x seq]; [done|].
  unfold random_choice. apply returns_safe, returns_bind, returns_call.
  intros i w Heq. apply returns_ret. rewrite Heq in HQ. apply HQ.
Qed.

(** The loop runs as many times as there are children to breed: with that
    many iterations it ends, having issued one identifier for each. *)
Lemma breed_safe (pool : list (Z * G)) (fuel : nat) :
  ∀ spawn (d : gmap Z G) (t : st),
    (Z.to_nat spawn ≤ fuel)%nat →
    safe (breed fuel spawn pool d) t (λ _ t',
      genome_indexer t' = genome_indexer t + Z.max spawn 0).
Proof.
  induction fuel as [|fuel IH]; intros spawn d t Hfuel; rewrite breed_unfold;
    destruct (Z.ltb_spec 0 spawn) as [Hpos|Hneg]; try lia;
    try (apply safe_ret; lia).
  apply safe_bind, safe_random_choice. intros [p1id p1].
  apply safe_bind, safe_random_choice. intros [p2id p2].
  apply safe_bind, returns_safe, returns_get_next.
  apply safe_bind, returns_safe, returns_call. intros child w3 _.
  apply safe_bind, returns_safe, returns_call. intros [] w4 _.
  apply safe_bind, returns_safe, returns_modify.
  eapply safe_mono; [apply (IH (spawn - 1)); lia|].
  simpl. intros _ t' ->. lia.
Qed.

Lemma reproduce_species_safe self fuel (d : gmap Z G)
    (item : Z * (Z * Species G * F)) (t : st) :
  (offspring_count self item ≤ fuel)%nat →
  safe (reproduce_species self fuel d item) t (λ _ t',
    genome_indexer t'
    = genome_indexer t + Z.of_nat (offspring_count self item)).
Proof.
  destruct item as [spawn0 [[sid s] sfitness]].
  pose proof (elite_items_length self (world t) (spawn0, (sid, s, sfitness))) as Hlen.
  pose proof (elite_count_le self (spawn0, (sid, s, sfitness))) as Hle.
  unfold offspring_count, elite_items in *. simpl in *.
  unfold reproduce_species. fold (allotted self spawn0).
  unfold retained in *. intros Hfuel.
  destruct (Z.ltb_spec 0 (allotted self spawn0)) as [Hpos|Hneg];
    destruct (Z.leb_spec (allotted self spawn0) 0); try lia.
  2:{ apply safe_ret. lia. }
  specialize (Hle eq_refl).
  apply safe_bind, returns_safe, returns_modify.
  apply safe_bind. unfold safe at 1. simpl. rewrite transfer_elites_eq.
  change (sort_desc (λ x : Z * G, fitness (deref (world t) x.2)) (members s))
    with (ranked (world t) s).
  rewrite Hlen.
  destruct (Z.leb_spec (allotted self spawn0 -
              Z.of_nat (elite_count self (spawn0, (sid, s, sfitness)))) 0).
  { apply safe_ret. simpl. lia. }
  apply safe_bind, safe_lift_exn. intros pool _.
  eapply safe_mono; [by apply breed_safe|].
  simpl. intros _ t' ->. lia.
Qed.

Lemma species_loop_safe self fuel (items : list (Z * (Z * Species G * F)))
    (t : st) :
  Forall (λ item, (offspring_count self item ≤ fuel)%nat) items →
  safe (for_each items ∅ (reproduce_species self fuel)) t (λ _ t',
    genome_indexer t' = genome_indexer t + Z.of_nat (total_offspring self items)).
Proof.
  intros Hfuel.
  pose (I := λ (pre rest : list (Z * (Z * Species G * F))) (d : gmap Z G) (t' : st),
          pre ++ rest = items ∧
          genome_indexer t'
          = genome_indexer t + Z.of_nat (total_offspring self pre)).
  cut (safe (for_each items ∅ (reproduce_species self fuel)) t (I ([] ++ items) [])).
  { intros Hsafe. eapply safe_mono; [exact Hsafe|]. by intros d t' [_ Hgi]. }
  apply safe_for_each_split.
  { split; [done|]. unfold total_offspring. simpl. lia. }
  intros pre x rest d t1 [Hitems Hgi]. subst I. cbv beta.
  eapply safe_mono.
  { apply (reproduce_species_safe self fuel d x t1).
    eapply (proj1 (Forall_forall _ _) Hfuel). rewrite <- Hitems.
    apply elem_of_app. right. left. }
  simpl. intros d' t' Hgi'. split; [by rewrite <- app_assoc|].
  unfold total_offspring in *. rewrite sum_list_with_app. simpl. lia.
Qed.

(** The passes before the loop over the species take no budget. *)
Lemma fitness_pass_safe (feed : list (Z * Species G * bool)) (t : st) :
  safe (fitness_pass feed) t (λ _ t', genome_indexer t' = genome_indexer t).
Proof.
  unfold fitness_pass. generalize (0, @nil (Z * Species G * F), lit_0_0).
  revert t. induction feed as [|[[sid s] stag] feed IH]; intros t acc.
  - by apply safe_ret.
  - unfold safe. rewrite for_each_cons. destruct stag.
    + rewrite fitness_step_stagnant. apply (IH (add_reports _ t)).
    + destruct acc as [[n sf] avg].
      destruct (decide (members s = [])) as [Hnil|Hne].
      * by rewrite fitness_step_empty.
      * rewrite fitness_step_active by done. apply IH.
Qed.

Lemma list_comp_safe {A B} (f : A → exn + B) (l : list A) (t : st) :
  safe (list_comp (λ x, lift_exn (f x)) l) t (λ _ t', t' = t).
Proof.
  induction l as [|x l IH]; simpl.
  - by apply safe_ret.
  - apply safe_bind, safe_lift_exn. intros y _.
    apply safe_bind. eapply safe_mono; [exact IH|].
    simpl. intros ys t' ->. by apply safe_ret.
Qed.

Lemma normalize_safe pop_size (raws : list F) (t : st) :
  safe (normalize pop_size raws) t (λ _ t', t' = t).
Proof.
  unfold normalize. apply safe_bind. unfold int_div.
  destruct (fzero (py_sum raws)); [done|]. apply safe_ret.
  apply list_comp_safe.
Qed.

(** C9: every call to [reproduce] terminates. For every state, configuration
    and target size there is a number N of iterations of the breeding loops
    with which, or with more, the call ends, with a population or with an
    exception; N is at most the number of identifiers the call issues, one for
    each child bred. *)
Theorem reproduce_terminates self pop_size (t : st) :
  ∃ N : nat, ∀ fuel, (N ≤ fuel)%nat →
    safe (reproduce self fuel pop_size) t (λ _ t',
      Z.of_nat N ≤ genome_indexer t' - genome_indexer t).
Proof.
  destruct (safe_inv _ _ _ (fitness_pass_safe (feed_of t) (fed t)))
    as [([[n sf] avg] & t1 & Hpass & Hgi1)|(e & t1 & Hpass)].
  2:{ exists 0%nat. intros fuel _. unfold safe.
      by rewrite reproduce_unfold, bind_unfold, Hpass. }
  assert (genome_indexer t1 = genome_indexer t) as Hgi by exact Hgi1.
  clear Hgi1.
  destruct (Z.eqb_spec n 0) as [Hz|Hnz].
  { exists 0%nat. intros fuel _. unfold safe.
    rewrite reproduce_unfold, bind_unfold, Hpass. cbv beta iota.
    destruct (Z.eqb_spec n 0); [|done]. simpl. lia. }
  set (avg' := fquot avg (of_int (Z.of_nat (length sf)))).
  set (t2 := add_reports [info_avg_adjusted_fitness avg'] t1).
  assert (∀ fuel Q,
            safe (spawn_amounts ← normalize pop_size (map (raw_spawn avg') sf);
                  _ ← report (info_spawn_amounts spawn_amounts);
                  _ ← report (info_species_fitness (map snd sf));
                  _ ← modify (set_species ∅);
                  new_population ←
                    for_each (zip spawn_amounts sf) ∅ (reproduce_species self fuel);
                  mret (PopDict new_population)) t2 Q →
            Z.of_nat (length sf) ≠ 0 →
            safe (reproduce self fuel pop_size) t Q) as Htail.
  { intros fuel Q Hsafe Hlen. unfold safe.
    rewrite reproduce_unfold, bind_unfold, Hpass. cbv beta iota.
    destruct (Z.eqb_spec n 0); [done|].
    rewrite bind_unfold, div_int_returns by done. rewrite bind_unfold.
    exact Hsafe. }
  destruct (Z.eqb_spec (Z.of_nat (length sf)) 0) as [Hlen|Hlen].
  { exists 0%nat. intros fuel _. unfold safe.
    rewrite reproduce_unfold, bind_unfold, Hpass. cbv beta iota.
    destruct (Z.eqb_spec n 0); [done|]. rewrite bind_unfold. unfold div_int.
    by destruct (Z.eqb_spec (Z.of_nat (length sf)) 0). }
  destruct (safe_inv _ _ _ (normalize_safe pop_size (map (raw_spawn avg') sf) t2))
    as [(spawns & t3 & Hnorm & ->)|(e & t3 & Hnorm)].
  2:{ exists 0%nat. intros fuel _. apply Htail; [|done].
      unfold safe. by rewrite bind_unfold, Hnorm. }
  exists (max_list_with (offspring_count self) (zip spawns sf)).
  intros fuel Hfuel. apply Htail; [|done].
  apply safe_bind. unfold safe at 1. rewrite Hnorm.
  apply safe_bind, returns_safe, returns_report.
  apply safe_bind, returns_safe, returns_report.
  apply safe_bind, returns_safe, returns_modify.
  apply safe_bind. eapply safe_mono.
  { apply (species_loop_safe self fuel (zip spawns sf)).
    by apply max_list_with_bound. }
  simpl. intros d t' Hloop. apply safe_ret.
  pose proof (max_le_sum_list_with (offspring_count self) (zip spawns sf)).
  unfold total_offspring in Hloop. lia.
Qed.

End termination.

(** ** The concrete genome class *)

Lemma lab_heap_discipline `{PyFloat F} (stagnant : Z → bool) (pick : nat → nat) :
  heap_discipline (H0 := Lab.collaborators stagnant pick)
                  (λ w g, (g < length (Lab.objects w))%nat).
Proof.
  split.
  - by intros sp w g Hg.
  - by intros n w g Hg.
  - intros p1 p2 gid w. split; [|simpl; lia].
    intros g Hg. simpl. rewrite length_app. split; [lia|].
    by rewrite app_nth1.
  - intros c w g Hg. simpl. rewrite length_alter. split; [done|].
    intros Hne. rewrite !nth_lookup. by rewrite list_lookup_alter_ne.
Qed.

(** ** The scenario of the specification *)

Lemma spawn_plan_rounded {G} `{PyFloat F} (pop_size : Z)
    (sf : list (Z * Species G * F)) (spawns : list Z) :
  spawn_plan pop_size sf spawns →
  map (λ raw, py_round
                (fmul raw (fquot (of_int pop_size)
                                 (py_sum (map (raw_spawn (average sf)) sf)))))
      (map (raw_spawn (average sf)) sf)
  = map inr spawns.
Proof.
  unfold spawn_plan. cbv zeta.
  generalize (fquot (of_int pop_size) (py_sum (map (raw_spawn (average sf)) sf))).
  generalize (map (raw_spawn (average sf)) sf). intros raws norm.
  induction 1 as [|z raw spawns raws Hz _ IH]; [done|].
  simpl. by rewrite Hz, IH.
Qed.

(** C4: in the scenario, in exact arithmetic and whatever the random draws,
    the adjusted fitness is 20/3 for A and 5/2 for B, 55/12 on average, the
    raw spawn amounts are 33/10 and 9/5 and the normalized ones 4 and 2; the
    call returns 6 genomes, among them the genome of fitness 30 of A and the
    first genome of fitness 5 of B under their own keys, the objects being
    what they were. The binary64 run gives the same amounts and population,
    its adjusted fitness values equal to those up to rounding. *)
Theorem scenario_of_the_specification (pick : nat → nat) :
  (∃ a b,
     survivors (H0 := Lab.collaborators Lab.none_stagnant pick) Scenario.start
     = [(1, Scenario.A, a); (2, Scenario.B, b)] ∧
     (a == 20 # 3)%Q ∧ (b == 5 # 2)%Q ∧
     (average [(1%Z, Scenario.A, a); (2%Z, Scenario.B, b)] == 55 # 12)%Q ∧
     (raw_spawn (55 # 12) (1%Z, Scenario.A, a) == 33 # 10)%Q ∧
     (raw_spawn (55 # 12) (2%Z, Scenario.B, b) == 9 # 5)%Q ∧
     ∀ spawns,
       spawn_plan 6 [(1, Scenario.A, a); (2, Scenario.B, b)] spawns →
       spawns = [4; 2]) ∧
  (∀ fuel, (3 ≤ fuel)%nat →
     ∃ d t',
       Lab.reproduce_in Lab.none_stagnant pick Scenario.exact fuel 6 Scenario.start
       = Ok (PopDict d) t' ∧
       size d = 6%nat ∧
       info_spawn_amounts [4; 2] ∈ reporters t' ∧
       d !! 3 = Some 2%nat ∧
       nth 2 (Lab.objects (world t')) (Lab.founder 0%Q 0) = Lab.founder 30%Q 3 ∧
       d !! 4 = Some 3%nat ∧
       nth 3 (Lab.objects (world t')) (Lab.founder 0%Q 0) = Lab.founder 5%Q 4) ∧
  (∃ d t' avg a b,
     Lab.reproduce_in Lab.none_stagnant Lab.first_choice Scenario.binary64 3 6
                      Scenario.start
     = Ok (PopDict d) t' ∧
     size d = 6%nat ∧
     reporters t' = [info_avg_adjusted_fitness avg; info_spawn_amounts [4; 2];
                     info_species_fitness [a; b]] ∧
     Scenario.near avg (55 / 12)%float = true ∧
     Scenario.near a (20 / 3)%float = true ∧
     b = 2.5%float ∧
     d !! 3 = Some 2%nat ∧
     nth 2 (Lab.objects (world t')) (Lab.founder 0%float 0) = Lab.founder 30%float 3 ∧
     d !! 4 = Some 3%nat ∧
     nth 3 (Lab.objects (world t')) (Lab.founder 0%float 0) = Lab.founder 5%float 4).
Proof.
  set (C := Lab.collaborators (F:=Q) Lab.none_stagnant pick).
  assert (survivors (H0 := C) Scenario.start
          = [(1, Scenario.A, (540 # 81)%Q); (2, Scenario.B, (20 # 8)%Q)]) as Hsf
    by (vm_compute; reflexivity).
  assert (∀ spawns,
            spawn_plan 6
              [(1, Scenario.A, (540 # 81)%Q); (2, Scenario.B, (20 # 8)%Q)] spawns →
            spawns = [4; 2]) as Hspawns.
  { intros spawns Hplan. apply spawn_plan_rounded in Hplan.
    vm_compute in Hplan. destruct spawns as [|z1 [|z2 [|z3 spawns]]]; try done.
    by simplify_eq. }
  split; [|split].
  - exists (540 # 81)%Q, (20 # 8)%Q. split; [exact Hsf|].
    repeat (split; [vm_compute; reflexivity|]). exact Hspawns.
  - intros fuel Hfuel.
    pose proof (lab_heap_discipline (F:=Q) Lab.none_stagnant pick) as Hheap.
    pose proof (preserved_kept (H0 := C) _ Hheap) as HR.
    assert (surviving (feed_of (H0 := C) Scenario.start)
            = [(1, Scenario.A); (2, Scenario.B)]) as Hsv
      by (vm_compute; reflexivity).
    assert (survivor_keys (H0 := C) Scenario.start = [1; 2; 3; 4; 5]) as Hkeys
      by (vm_compute; reflexivity).
    assert (genome_indexer (Scenario.start (F:=Q)) = 6) as Hgi0 by reflexivity.
    destruct (reproduce_returns (H0 := C) _ HR Scenario.exact 6 Scenario.start)
      as (spawns & Hplan & Hrun).
    { by rewrite Hsv. }
    { intros sid s. rewrite Hsv. intros Hin.
      apply elem_of_cons in Hin as [Heq|Hin]; [by simplify_eq|].
      apply elem_of_cons in Hin as [Heq|Hin]; [by simplify_eq|].
      by apply elem_of_nil in Hin. }
    { rewrite Hkeys. apply (bool_decide_unpack _). vm_compute. exact I. }
    { rewrite Hkeys, Hgi0. intros k Hk.
      repeat (apply elem_of_cons in Hk as [->|Hk]; [lia|]).
      by apply elem_of_nil in Hk. }
    rewrite Hsf in Hplan, Hrun. apply Hspawns in Hplan. subst spawns.
    assert (Forall (λ item : Z * (Z * Species nat * Q),
                      (offspring_count Scenario.exact item ≤ fuel)%nat)
                   (zip [4; 2] [(1, Scenario.A, (540 # 81)%Q);
                                (2, Scenario.B, (20 # 8)%Q)])) as Hbudget.
    { repeat constructor.
      - replace (offspring_count Scenario.exact (4, (1, Scenario.A, (540 # 81)%Q)))
          with 3%nat by (vm_compute; reflexivity). lia.
      - replace (offspring_count Scenario.exact (2, (2, Scenario.B, (20 # 8)%Q)))
          with 1%nat by (vm_compute; reflexivity). lia. }
    destruct (proj1 (returns_iff _ _ _) (Hrun fuel Hbudget))
      as (p & t' & Hok & d & -> & Hgen).
    exists d, t'. split; [exact Hok|]. clear Hok Hrun.
    destruct Hgen as (_ & Hsize & _ & Hrep & HRw & _ & Hel).
    assert (world (planned (H0 := C) Scenario.start [4; 2])
            = world (Scenario.start (F:=Q))) as Hw0 by (vm_compute; reflexivity).
    rewrite Hw0 in HRw, Hel.
    split; [rewrite Hsize; vm_compute; reflexivity|].
    split.
    { rewrite Hrep. vm_compute. apply list_elem_of_further, list_elem_of_here. }
    assert (∀ g, (g < 5)%nat →
              nth g (Lab.objects (world t')) (Lab.founder 0%Q 0)
              = nth g (Lab.objects (world (Scenario.start (F:=Q))))
                    (Lab.founder 0%Q 0)) as Hsame.
    { intros g Hg. destruct (HRw g) as [_ Heq]; [exact Hg|exact Heq]. }
    assert (∀ item i m,
              item ∈ [(4, (1, Scenario.A, (540 # 81)%Q));
                      (2, (2, Scenario.B, (20 # 8)%Q))] →
              (i, m) ∈ elite_items (H0 := C) Scenario.exact
                         (world (Scenario.start (F:=Q))) item →
              d !! i = Some m) as Helite.
    { intros item i m Hitem Him.
      destruct (Hel item Hitem) as (w & Hw & Hd). apply Hd.
      unfold elite_items. unfold elite_items in Him.
      destruct (retained Scenario.exact item.1); [|done].
      rewrite (ranked_preserved (H0 := C)
                 (λ (w : Lab.lab_world Q) (g : nat), (g < length (Lab.objects w))%nat)
                 (world (Scenario.start (F:=Q))) w);
        [done|exact Hw|].
      intros j g Hjg.
      assert (g < 5)%nat as Hg; [|exact Hg].
      apply elem_of_cons in Hitem as [->|Hitem].
      { repeat (apply elem_of_cons in Hjg as [Heq|Hjg]; [simplify_eq; lia|]).
        by apply elem_of_nil in Hjg. }
      apply elem_of_cons in Hitem as [->|Hitem].
      { repeat (apply elem_of_cons in Hjg as [Heq|Hjg]; [simplify_eq; lia|]).
        by apply elem_of_nil in Hjg. }
      by apply elem_of_nil in Hitem. }
    split.
    { apply (Helite (4, (1, Scenario.A, (540 # 81)%Q))); [left|].
      vm_compute. apply list_elem_of_here. }
    split; [rewrite Hsame by lia; reflexivity|].
    split.
    { apply (Helite (2, (2, Scenario.B, (20 # 8)%Q))); [right; left|].
      vm_compute. apply list_elem_of_here. }
    rewrite Hsame by lia. reflexivity.
  - do 5 eexists. split; [vm_compute; reflexivity|].
    repeat (split; [vm_compute; reflexivity|]). vm_compute. reflexivity.
Qed.

(** ** What a call leaves, in any arithmetic *)

Lemma ends_ret {S A} (a : A) (s : S) (Q : A → S → Prop) (E : exn → Prop) :
  Q a s → ends (mret a) s Q E.
Proof. done. Qed.

Lemma ends_raise {S A} (e : exn) (s : S) (Q : A → S → Prop) (E : exn → Prop) :
  E e → ends (raise e) s Q E.
Proof. done. Qed.

Lemma ends_bind {S A B} (m : M S A) (f : A → M S B) s Q E :
  ends m s (λ a s', ends (f a) s' Q E) E → ends (m ≫= f) s Q E.
Proof.
  unfold ends. rewrite bind_unfold. destruct (m s); done.
Qed.

Lemma ends_mono {S A} (m : M S A) s (Q Q' : A → S → Prop) (E E' : exn → Prop) :
  ends m s Q E →
  (∀ a s', Q a s' → Q' a s') → (∀ e, E e → E' e) →
  ends m s Q' E'.
Proof.
  unfold ends. destruct (m s); eauto.
Qed.

Lemma returns_ends {S A} (m : M S A) s (Q : A → S → Prop) (E : exn → Prop) :
  returns m s Q → ends m s Q E.
Proof.
  unfold returns, ends. destruct (m s); done.
Qed.

Lemma ends_ok {S A} (m : M S A) s (Q : A → S → Prop) (E : exn → Prop) a s' :
  ends m s Q E → m s = Ok a s' → Q a s'.
Proof. unfold ends. intros HQ Heq. by rewrite Heq in HQ. Qed.

Lemma ends_raised {S A} (m : M S A) s (Q : A → S → Prop) (E : exn → Prop) e s' :
  ends m s Q E → m s = Raise e s' → E e.
Proof. unfold ends. intros HQ Heq. by rewrite Heq in HQ. Qed.

Lemma ends_lift_exn {S A} (r : exn + A) (s : S) (Q : A → S → Prop)
    (E : exn → Prop) :
  (∀ a, r = inr a → Q a s) → (∀ e, r = inl e → E e) →
  ends (lift_exn r) s Q E.
Proof.
  intros HQ HE. destruct r as [e|a]; [by apply ends_raise, HE|by apply ends_ret, HQ].
Qed.

Lemma ends_for_each_split {S A B} (body : B → A → M S B)
    (I : list A → list A → B → S → Prop) (E : exn → Prop) :
  ∀ l pre acc s,
    I pre l acc s →
    (∀ pre x l' acc s,
       I pre (x :: l') acc s → ends (body acc x) s (I (pre ++ [x]) l') E) →
    ends (for_each l acc body) s (I (pre ++ l) []) E.
Proof.
  induction l as [|x l IH]; intros pre acc s HI Hbody; simpl.
  - apply ends_ret. by rewrite app_nil_r.
  - apply ends_bind. eapply ends_mono; [by apply Hbody| |done].
    intros acc' s' HI'. rewrite (cons_middle x pre l), app_assoc. by apply IH.
Qed.

Lemma ends_and {S A} (m : M S A) s (Q Q' : A → S → Prop) (E E' : exn → Prop) :
  ends m s Q E → ends m s Q' E' →
  ends m s (λ a s', Q a s' ∧ Q' a s') (λ e, E e ∧ E' e).
Proof.
  unfold ends. destruct (m s); done.
Qed.





Lemma ends_list_comp {S A B} (f : A → exn + B) (l : list A) (s : S) :
  ends (list_comp (λ x, lift_exn (f x)) l) s
       (λ ys s', s' = s ∧ Forall2 (λ y x, f x = inr y) ys l)
       (λ e, ∃ x, x ∈ l ∧ f x = inl e).
Proof.
  induction l as [|x l IH]; simpl.
  - apply ends_ret. split; [done|constructor].
  - apply ends_bind, ends_lift_exn.
    2:{ intros e He. exists x. split; [left|done]. }
    intros y Hy. apply ends_bind. eapply ends_mono; [exact IH| |].
    + simpl. intros ys s' [-> Hall]. apply ends_ret.
      split; [done|by constructor].
    + intros e (x' & Hin & He). exists x'. split; [by right|done].
Qed.

Section outcomes.
Context {F G Obj W : Type} `{PyFloat F} `{Collaborators F G Obj W}.

Abbreviation st := (state F G W).

Lemma elites_none (self : DefaultReproduction F) (l : list (Z * G)) :
  elitism self ≤ 0 → elites self l = [].
Proof.
  intros Hle. unfold elites. by destruct (Z.ltb_spec 0 (elitism self)); [lia|].
Qed.

Lemma elite_items_none self (w : W) (item : Z * (Z * Species G * F)) :
  elitism self ≤ 0 → elite_items self w item = [].
Proof.
  intros Hle. unfold elite_items. destruct (retained self item.1); [|done].
  by apply elites_none.
Qed.

Lemma breeding_keys_members self (w : W) (item : Z * (Z * Species G * F)) k :
  k ∈ breeding_keys self w item → k ∈ (members item.2.1.2).*1.
Proof.
  unfold breeding_keys, breeding_pool.
  destruct (py_ceil _) as [e|c]; [intros Hk; by apply elem_of_nil in Hk|].
  intros Hk. rewrite <- (ranked_keys w).
  apply list_elem_of_fmap in Hk as (x & -> & Hx).
  apply list_elem_of_fmap_2. by eapply subseteq_take.
Qed.

Lemma ends_random_choice {A} (seq : list A) (t : st) (Q : A → st → Prop)
    (E : exn → Prop) :
  (seq = [] → E IndexError) →
  (∀ x, x ∈ seq →
        Q x (set_world (random_index (length seq) (world t)).2 t)) →
  ends (random_choice seq) t Q E.
Proof.
  intros HE HQ. destruct seq as [|x seq]; [by apply ends_raise, HE|].
  by apply returns_ends, returns_random_choice.
Qed.

(** The pass over the stagnation feed either scores every surviving species
    or stops at one without members. *)
Lemma fitness_pass_ends (feed : list (Z * Species G * bool)) (t : st) :
  ends (fitness_pass feed) t
    (λ r t',
       (∀ sid s, (sid, s) ∈ surviving feed → members s ≠ []) ∧
       r = (Z.of_nat (length (surviving feed)),
            scored (world t) (surviving feed),
            foldl fadd lit_0_0 (map snd (scored (world t) (surviving feed)))) ∧
       t' = add_reports (stagnant_reports feed) t)
    (λ e, e = ZeroDivisionError ∧
          ∃ sid s, (sid, s) ∈ surviving feed ∧ members s = []).
Proof.
  unfold fitness_pass, ends.
  destruct (decide (Forall (λ x : Z * Species G, members x.2 ≠ []) (surviving feed)))
    as [Hall|Hex].
  - assert (∀ sid s, (sid, s) ∈ surviving feed → members s ≠ []) as Hmem.
    { intros sid s Hin. by apply (proj1 (Forall_forall _ _) Hall (sid, s)). }
    rewrite fitness_loop_returns by done. by rewrite Z.add_0_l.
  - apply not_Forall_Exists in Hex; [|apply _].
    apply Exists_exists in Hex as ([sid s] & Hin & Hnil). simpl in Hnil.
    assert (members s = []) as Hs.
    { destruct (members s); [done|]. by destruct Hnil. }
    destruct (fitness_loop_raises feed (0, [], lit_0_0) t) as (es & _ & ->);
      eauto.
Qed.

Lemma normalize_ends pop_size (raws : list F) (t : st) :
  ends (normalize pop_size raws) t
    (λ spawns t',
       t' = t ∧ fzero (py_sum raws) = false ∧
       Forall2 (λ z raw,
                  py_round (fmul raw (fquot (of_int pop_size) (py_sum raws)))
                  = inr z) spawns raws)
    (λ e, (e = ZeroDivisionError ∧ fzero (py_sum raws) = true) ∨
          ∃ raw, raw ∈ raws ∧
                 py_round (fmul raw (fquot (of_int pop_size) (py_sum raws)))
                 = inl e).
Proof.
  unfold normalize, int_div. destruct (fzero (py_sum raws)) eqn:Hz.
  - apply ends_bind, ends_raise. by left.
  - apply ends_bind, ends_ret.
    eapply ends_mono;
      [apply (ends_list_comp
                (λ n, py_round (fmul n (fquot (of_int pop_size) (py_sum raws)))))
      | |].
    + intros spawns t' [-> Hall]. done.
    + intros e Hx. by right.
Qed.

Variable R : W → W → Prop.
Hypothesis HR : kept_by_breeding R.

Lemma breed_ends (pool : list (Z * G)) (E : exn → Prop) (fuel : nat) :
  (pool = [] → E IndexError) →
  ∀ spawn (d : gmap Z G) (t : st),
    ends (breed fuel spawn pool d) t (bred_any R pool d t (Z.max spawn 0)) E.
Proof.
  intros HE.
  assert (∀ spawn (d : gmap Z G) (t : st),
            spawn ≤ 0 → bred_any R pool d t (Z.max spawn 0) d t) as Hstop.
  { intros spawn d t Hneg. replace (Z.max spawn 0) with 0 by lia.
    unfold bred_any. rewrite Z.add_0_r.
    split; [done|]. split; [done|]. split; [done|]. split; [apply HR|].
    split; [done|]. split; [|split; [|split; [done|]]].
    - intros k. split; [auto|]. intros [?|?]; [done|lia].
    - intros _. simpl. lia.
    - intros k Hk. lia. }
  induction fuel as [|fuel IH]; intros spawn d t; rewrite breed_unfold;
    destruct (Z.ltb_spec 0 spawn) as [Hpos|Hneg];
    [done|by apply ends_ret, Hstop| |by apply ends_ret, Hstop].
  apply ends_bind, ends_random_choice; [done|]. intros [p1id p1] Hp1.
  apply ends_bind, ends_random_choice; [done|]. intros [p2id p2] Hp2.
  simpl. apply ends_bind, returns_ends, returns_get_next.
  apply ends_bind, returns_ends, returns_call. intros child w3 Hcross.
  apply ends_bind, returns_ends, returns_call. intros [] w4 Hmut.
  apply ends_bind, returns_ends, returns_modify.
  eapply ends_mono; [apply (IH (spawn - 1))| |done].
  simpl. intros d' t' (Hgi & Hsp & Hrep & HRw & Hold & Hdom & Hsize & Hanc & Hnew).
  simpl in *. replace (Z.max (spawn - 1) 0) with (spawn - 1) in * by lia.
  replace (Z.max spawn 0) with spawn by lia.
  unfold bred_any. split; [lia|]. split; [done|]. split; [done|].
  split; [|split; [|split; [|split; [|split]]]].
  - set (w1 := (random_index (length pool) (world t)).2) in *.
    set (w2 := (random_index (length pool) w1).2) in *.
    assert (R (world t) w1) as H1 by apply HR.
    assert (R w1 w2) as H2 by apply HR.
    assert (R w2 w4) as H3.
    { pose proof (kept_child R HR p1 p2 (genome_indexer t) w2) as Hc.
      rewrite Hcross in Hc. simpl in Hc. by simplify_eq. }
    eapply (kept_trans R HR); [|exact HRw].
    eapply (kept_trans R HR); [exact H1|].
    eapply (kept_trans R HR); [exact H2|exact H3].
  - intros k Hk. rewrite Hold by lia. apply lookup_insert_ne. lia.
  - intros k. rewrite Hdom, dom_insert, elem_of_union, elem_of_singleton.
    split.
    + intros [[->|Hk]|Hk]; [right; lia|by left|right; lia].
    + intros [Hk|Hk]; [by left; right|].
      destruct (decide (k = genome_indexer t)) as [->|Hne];
        [by left; left|right; lia].
  - intros Hd. rewrite Hsize.
    + rewrite map_size_insert_None; [lia|]. apply not_elem_of_dom.
      intros Hk. apply Hd in Hk. lia.
    + intros k. rewrite dom_insert, elem_of_union, elem_of_singleton.
      intros [->|Hk]; [lia|]. apply Hd in Hk. lia.
  - intros k Hk. rewrite Hanc by lia. apply lookup_insert_ne. lia.
  - intros k Hk. destruct (decide (k = genome_indexer t)) as [->|Hne].
    + rewrite Hanc by lia. rewrite lookup_insert_eq.
      exists p1id, p2id. split; [done|].
      split; apply list_elem_of_fmap; [by exists (p1id, p1)|by exists (p2id, p2)].
    + apply Hnew. lia.
Qed.

Lemma reproduce_species_ends (E : exn → Prop) self fuel (d : gmap Z G)
    (item : Z * (Z * Species G * F)) (t : st) :
  (members item.2.1.2 = [] → E IndexError) →
  (∀ e, py_ceil (fmul (survival_threshold self)
                      (of_int (Z.of_nat (length (members item.2.1.2))))) = inl e →
        E e) →
  ends (reproduce_species self fuel d item) t (species_done R self item d t) E.
Proof.
  destruct item as [spawn0 [[sid s] sfitness]]. simpl. intros HEi HEc.
  pose proof (elite_items_length self (world t) (spawn0, (sid, s, sfitness))) as Hlen.
  pose proof (elite_count_le self (spawn0, (sid, s, sfitness))) as Hle.
  unfold species_done, breeding_keys, offspring_count, elite_items in *.
  simpl in *.
  unfold reproduce_species. fold (allotted self spawn0).
  unfold retained in *. destruct (Z.ltb_spec 0 (allotted self spawn0)) as [Hpos|Hneg].
  2:{ destruct (Z.leb_spec (allotted self spawn0) 0); [|lia].
      apply ends_ret. rewrite Z.add_0_r, Nat.add_0_r.
      split; [done|]. split; [done|]. split; [done|]. split; [apply HR|].
      split; [|split; [done|split; [done|]]].
      - intros k. split; [auto|]. intros [?|[Hk|?]]; [done| |lia].
        by apply elem_of_nil in Hk.
      - intros k Hk. lia. }
  destruct (Z.leb_spec (allotted self spawn0) 0); [lia|].
  specialize (Hle eq_refl).
  apply ends_bind, returns_ends, returns_modify. apply ends_bind. unfold ends at 1.
  simpl. rewrite transfer_elites_eq.
  change (sort_desc (λ x : Z * G, fitness (deref (world t) x.2)) (members s))
    with (ranked (world t) s).
  set (el := elites self (ranked (world t) s)) in *.
  rewrite Hlen in *.
  set (n := elite_count self (spawn0, (sid, s, sfitness))) in *.
  destruct (Z.leb_spec (allotted self spawn0 - Z.of_nat n) 0) as [Hzero|Hmore].
  { apply ends_ret. simpl.
    replace (Z.to_nat (allotted self spawn0 - Z.of_nat n)) with 0%nat by lia.
    rewrite Z.add_0_r, Nat.add_0_r.
    split; [done|]. split; [done|]. split; [done|]. split; [apply HR|].
    split; [|split; [|split; [done|]]].
    - intros k. rewrite insert_items_dom. split; [tauto|].
      intros [Hk|[Hk|Hk]]; [tauto|tauto|lia].
    - intros He _. subst el. by rewrite elites_none.
    - intros k Hk. lia. }
  apply ends_bind, ends_lift_exn.
  2:{ intros e He. unfold breeding_pool, ranked in He.
      rewrite sort_desc_length in He.
      destruct (py_ceil _) as [e'|c] eqn:Hc; [|done]. simplify_eq. by apply HEc. }
  intros pool Hpool. rewrite Hpool.
  eapply ends_mono; [apply (breed_ends pool E fuel)| |done].
  { intros ->. apply HEi. unfold breeding_pool in Hpool.
    destruct (py_ceil (fmul (survival_threshold self)
                (of_int (Z.of_nat (length (ranked (world t) s))))))
      as [e'|c]; [done|]. simplify_eq.
    apply take_nil_inv in Hpool as [?|Hnil]; [lia|].
    apply (f_equal length) in Hnil. unfold ranked in Hnil.
    rewrite sort_desc_length in Hnil. by destruct (members s). }
  simpl. intros d' t' (Hgi & Hsp & Hrep & HRw & Hold & Hdom & Hsize & Hanc & Hnew).
  simpl in *.
  replace (Z.max (allotted self spawn0 - Z.of_nat n) 0)
    with (allotted self spawn0 - Z.of_nat n) in * by lia.
  split; [lia|]. split; [done|]. split; [done|]. split; [done|].
  split; [|split; [|split; [done|]]].
  - intros k. rewrite Hdom, insert_items_dom, Hgi.
    replace (Z.of_nat (Z.to_nat (allotted self spawn0 - Z.of_nat n)))
      with (allotted self spawn0 - Z.of_nat n) by lia. tauto.
  - intros He Hd. rewrite Hsize; subst el; rewrite elites_none by done; done.
  - intros k Hk. apply Hnew. lia.
Qed.

Lemma species_loop_ends (E : exn → Prop) self fuel
    (items : list (Z * (Z * Species G * F))) (t : st) :
  Forall (λ item, members item.2.1.2 = [] → E IndexError) items →
  Forall (λ item,
            ∀ e, py_ceil (fmul (survival_threshold self)
                               (of_int (Z.of_nat (length (members item.2.1.2)))))
                 = inl e → E e) items →
  ends (for_each items ∅ (reproduce_species self fuel)) t
       (generated R self items t) E.
Proof.
  intros HEi HEc.
  pose (I := λ (pre rest : list (Z * (Z * Species G * F))) (d : gmap Z G) (t' : st),
          pre ++ rest = items ∧ generated R self pre t d t').
  cut (ends (for_each items ∅ (reproduce_species self fuel)) t (I ([] ++ items) []) E).
  { intros Hret. eapply ends_mono; [exact Hret| |done]. by intros d t' [_ Hgen]. }
  apply ends_for_each_split.
  { split; [done|]. unfold generated, total_offspring. simpl.
    rewrite Z.add_0_r, map_size_empty.
    split; [done|]. split; [done|]. split; [done|]. split; [apply HR|].
    split; [|split; [|split; [done|split; [done|]]]].
    - intros k. rewrite dom_empty. intros Hk. by apply elem_of_empty in Hk.
    - intros k Hk. lia.
    - intros k Hk. lia. }
  intros pre x rest d t1 [Hitems Hgen]. subst I. cbv beta.
  destruct Hgen as (Hgi & Hsp & Hrep & HRw & Hdom & Hkids & Hsize & Hanc & Hnew).
  assert (x ∈ items) as Hx.
  { rewrite <- Hitems. apply elem_of_app. right. left. }
  eapply ends_mono;
    [apply (reproduce_species_ends E self fuel d x t1);
       [by apply (proj1 (Forall_forall _ _) HEi x)
       |by apply (proj1 (Forall_forall _ _) HEc x)]| |done].
  simpl. intros d' t' (Hgi' & Hsp' & Hrep' & HRw' & Hdom' & Hsize' & Hanc' & Hnew').
  split; [by rewrite <- app_assoc|].
  unfold generated, total_offspring.
  rewrite !sum_list_with_app. simpl. fold (total_offspring self pre).
  split; [lia|]. split; [by rewrite rebuilt_snoc, Hsp', Hsp|].
  split; [congruence|]. split; [by eapply (kept_trans R HR)|].
  split; [|split; [|split; [|split]]].
  - intros k Hk. apply Hdom' in Hk as [Hk|[Hk|Hk]].
    + apply Hdom in Hk as [(item & w & Hin & Hw & Hk)|Hk]; [|right; lia].
      left. exists item, w. split; [|done]. apply elem_of_app. by left.
    + left. exists x, (world t1). split; [|done]. apply elem_of_app.
      right. left.
    + right. lia.
  - intros k Hk. apply Hdom'.
    destruct (decide (k < genome_indexer t1)); [left; apply Hkids; lia|right; right; lia].
  - intros He. rewrite Hsize'; [rewrite Hsize by done; lia|done|].
    intros k Hk. apply Hdom in Hk as [(item & w & _ & _ & Hk)|Hk]; [|lia].
    rewrite elite_items_none in Hk by done. by apply elem_of_nil in Hk.
  - intros k Hk. rewrite Hanc' by lia. by apply Hanc.
  - intros k Hk. destruct (decide (k < genome_indexer t1)) as [Hlt|Hge].
    + destruct (Hnew k) as (item & w & p1 & p2 & Hin & Hw & Hk' & Hp1 & Hp2); [lia|].
      exists item, w, p1, p2. split; [apply elem_of_app; by left|].
      split; [done|]. split; [by rewrite Hanc'|done].
    + destruct (Hnew' k) as (p1 & p2 & Hk' & Hp1 & Hp2); [lia|].
      exists x, (world t1), p1, p2. split; [apply elem_of_app; right; left|done].
Qed.

End outcomes.

Section frame.
Context {F G Obj W : Type} `{PyFloat F} `{Collaborators F G Obj W}.

Abbreviation st := (state F G W).

(** A whole call around the loop over the species: what it returns and
    leaves when it returns, and what it can raise, given what the loop
    does. *)
Lemma reproduce_frame self fuel pop_size (t : st)
    (Qloop : list Z → gmap Z G → st → Prop) (Eloop : list Z → exn → Prop) :
  (∀ spawns,
     surviving (feed_of t) ≠ [] →
     (∀ sid s, (sid, s) ∈ surviving (feed_of t) → members s ≠ []) →
     spawn_plan pop_size (survivors t) spawns →
     ends (for_each (zip spawns (survivors t)) ∅ (reproduce_species self fuel))
          (planned t spawns) (Qloop spawns) (Eloop spawns)) →
  ends (reproduce self fuel pop_size) t
    (λ p t',
       (∀ sid s, (sid, s) ∈ surviving (feed_of t) → members s ≠ []) ∧
       ((surviving (feed_of t) = [] ∧ p = PopList [] ∧
         t' = set_species ∅ (add_reports (stagnant_reports (feed_of t)) (fed t))) ∨
        (surviving (feed_of t) ≠ [] ∧
         fzero (py_sum (raw_spawns t)) = false ∧
         ∃ spawns d,
           spawn_plan pop_size (survivors t) spawns ∧ p = PopDict d ∧
           Qloop spawns d t')))
    (λ e,
       (e = ZeroDivisionError ∧
        ∃ sid s, (sid, s) ∈ surviving (feed_of t) ∧ members s = []) ∨
       (surviving (feed_of t) ≠ [] ∧
        (∀ sid s, (sid, s) ∈ surviving (feed_of t) → members s ≠ []) ∧
        ((e = ZeroDivisionError ∧ fzero (py_sum (raw_spawns t)) = true) ∨
         (∃ raw, raw ∈ raw_spawns t ∧
                 py_round (fmul raw (spawn_norm pop_size t)) = inl e) ∨
         (∃ spawns, spawn_plan pop_size (survivors t) spawns ∧ Eloop spawns e)))).
Proof.
  intros Hloop.
  unfold ends at 1. rewrite reproduce_unfold.
  match goal with |- match ?m ?s with Ok a s' => @?Q a s' | Raise e _ => @?E e
                     | Timeout => True end =>
    change (ends m s Q E) end.
  apply ends_bind.
  eapply ends_mono; [apply fitness_pass_ends| |].
  2:{ intros e [-> Hex]. left. eauto. }
  intros [[n sf] avg] t1 (Hmem & Heq & ->). simplify_eq.
  fold (survivors t).
  destruct (Z.eqb_spec (Z.of_nat (length (surviving (feed_of t)))) 0) as [Hz|Hnz].
  { apply ends_bind, returns_ends, returns_modify, ends_ret.
    split; [done|]. left. split; [|done].
    destruct (surviving (feed_of t)); [done|simpl in Hz; lia]. }
  assert (surviving (feed_of t) ≠ []) as Hsv.
  { intros Hnil. rewrite Hnil in Hnz. done. }
  apply ends_bind. unfold ends at 1. rewrite div_int_returns.
  2:{ unfold survivors, scored. by rewrite length_map. }
  fold (average (survivors t)). fold (raw_spawns t).
  apply ends_bind, returns_ends, returns_report.
  apply ends_bind. eapply ends_mono; [apply normalize_ends| |].
  2:{ intros e [[-> Hz]|Hr]; right; (split; [done|]); (split; [done|]);
        [by left|right; by left]. }
  intros spawns t1 (-> & Hz & Hplan).
  apply ends_bind, returns_ends, returns_report.
  apply ends_bind, returns_ends, returns_report.
  apply ends_bind, returns_ends, returns_modify. apply ends_bind.
  match goal with |- ends _ ?t1 _ _ =>
    replace t1 with (planned t spawns) end.
  2:{ unfold planned, add_reports, set_species. simpl. f_equal.
      by rewrite <- !app_assoc. }
  eapply ends_mono; [by apply (Hloop spawns)| |].
  - intros d t' Hgen. apply ends_ret. split; [done|]. right. split; [done|].
    split; [done|]. by exists spawns, d.
  - intros e He. right. split; [done|]. split; [done|]. right. right.
    by exists spawns.
Qed.

Variable R : W → W → Prop.
Hypothesis HR : kept_by_breeding R.

(** A whole call: what it returns and leaves when it returns, and what it
    can raise. *)
Lemma reproduce_ends self fuel pop_size (t : st) :
  ends (reproduce self fuel pop_size) t
    (λ p t',
       (∀ sid s, (sid, s) ∈ surviving (feed_of t) → members s ≠ []) ∧
       ((surviving (feed_of t) = [] ∧ p = PopList [] ∧
         t' = set_species ∅ (add_reports (stagnant_reports (feed_of t)) (fed t))) ∨
        (surviving (feed_of t) ≠ [] ∧
         ∃ spawns d,
           spawn_plan pop_size (survivors t) spawns ∧ p = PopDict d ∧
           generated R self (zip spawns (survivors t)) (planned t spawns) d t')))
    (λ e,
       (e = ZeroDivisionError ∧
        ((∃ sid s, (sid, s) ∈ surviving (feed_of t) ∧ members s = []) ∨
         (surviving (feed_of t) ≠ [] ∧
          (∀ sid s, (sid, s) ∈ surviving (feed_of t) → members s ≠ []) ∧
          fzero (py_sum (map (raw_spawn (average (survivors t))) (survivors t)))
          = true))) ∨
       (∃ x, py_round x = inl e) ∨ (∃ x, py_ceil x = inl e)).
Proof.
  eapply ends_mono.
  - apply (reproduce_frame self fuel pop_size t
             (λ spawns, generated R self (zip spawns (survivors t))
                                  (planned t spawns))
             (λ _ e, ∃ x, py_ceil x = inl e)).
    intros spawns Hsv Hmem Hplan.
    apply (species_loop_ends R HR (λ e, ∃ x, py_ceil x = inl e) self fuel).
    + apply Forall_forall. intros [z [[sid s] x]] Hin. simpl. intros Hnil.
      apply elem_of_zip_r in Hin. unfold survivors, scored in Hin.
      apply list_elem_of_fmap in Hin as ([sid' s'] & Heq & Hin). simplify_eq.
      by destruct (Hmem _ _ Hin).
    + apply Forall_forall. intros item _ e He. eauto.
  - intros p t' (Hmem & [Hnone|(Hsv & _ & Hsome)]); split; auto.
  - intros e [[-> Hex]|(Hsv & Hmem & [[-> Hz]|[(raw & _ & Hr)|(spawns & _ & Hc)]])].
    + left. split; [done|by left].
    + left. split; [done|]. right. done.
    + right. left. eauto.
    + right. by right.
Qed.

End frame.


(** ** Further properties of [create_new] and [reproduce] *)

Section observations.
Context {F G Obj W : Type} `{PyFloat F} `{Collaborators F G Obj W}.

Abbreviation st := (state F G W).

Lemma elem_of_zip_survivors (spawns : list Z) (t : st)
    (item : Z * (Z * Species G * F)) :
  item ∈ zip spawns (survivors t) →
  (item.2.1.1, item.2.1.2) ∈ surviving (feed_of t).
Proof.
  destruct item as [z [[sid s] x]]. intros Hin. apply elem_of_zip_r in Hin.
  unfold survivors, scored in Hin.
  apply list_elem_of_fmap in Hin as ([sid' s'] & Heq & Hin). by simplify_eq.
Qed.

Lemma elem_of_survivor_keys (t : st) (k : Z) :
  k ∈ survivor_keys t ↔
  ∃ sid s, (sid, s) ∈ surviving (feed_of t) ∧ k ∈ (members s).*1.
Proof.
  unfold survivor_keys. rewrite list_elem_of_bind. split.
  - intros ([sid s] & Hk & Hin). eauto.
  - intros (sid & s & Hin & Hk). by exists (sid, s).
Qed.

Lemma rebuilt_inv self (items : list (Z * (Z * Species G * F))) :
  ∀ (sp : gmap Z (Species G)) (sid : Z) (s' : Species G),
    rebuilt self sp items !! sid = Some s' →
    sp !! sid = Some s' ∨
    (s' = Build_Species [] ∧
     ∃ item, item ∈ items ∧ retained self item.1 = true ∧ item.2.1.1 = sid).
Proof.
  induction items as [|x items IH]; intros sp sid s' Hs; [by left|].
  change (rebuilt self sp (x :: items))
    with (rebuilt self (if retained self x.1
                        then <[x.2.1.1 := Build_Species []]> sp else sp) items)
    in Hs.
  apply IH in Hs as [Hs|(-> & item & Hin & Hret & Hsid)].
  - destruct (retained self x.1) eqn:Hret; [|by left].
    destruct (decide (x.2.1.1 = sid)) as [Heq|Hne].
    + rewrite Heq, lookup_insert_eq in Hs. simplify_eq. right.
      split; [done|]. exists x. split; [left|done].
    + rewrite lookup_insert_ne in Hs by done. by left.
  - right. split; [done|]. exists item. split; [by right|done].
Qed.

(** X1: [create_new count] returns a dict of exactly [count] genomes (none
    for a count that is not positive) under the next [count] identifiers of
    the indexer, which it advances by as many; each new key is recorded in
    [ancestors] with no parents and the entries of older keys stay. *)
Theorem create_new_founders (count : Z) (t : st) :
  returns (create_new count) t (λ d t',
    size d = Z.to_nat count ∧
    genome_indexer t' = genome_indexer t + Z.max count 0 ∧
    (∀ k, k ∈ dom d ↔ genome_indexer t ≤ k < genome_indexer t') ∧
    (∀ k, k ∈ dom d → ancestors t' !! k = Some []) ∧
    (∀ k, k < genome_indexer t → ancestors t' !! k = ancestors t !! k) ∧
    (count ≤ 0 → d = ∅)).
Proof.
  unfold create_new. eapply returns_mono.
  - apply create_loop_returns. intros k. by rewrite dom_empty, elem_of_empty.
  - simpl. intros d t' (Hsize & Hgi & Hdom & Hnew & Hold).
    rewrite map_size_empty in Hsize.
    assert (∀ k, k ∈ dom d ↔ genome_indexer t ≤ k < genome_indexer t') as Hd.
    { intros k. rewrite Hdom, dom_empty, elem_of_empty. tauto. }
    split; [done|]. split; [lia|]. split; [done|].
    split; [intros k Hk; by apply Hnew, Hd|]. split; [done|].
    intros Hc. apply map_size_empty_inv. rewrite Hsize. lia.
Qed.

(** X2: when [reproduce] returns, the indexer has not gone back, every
    identifier issued during the call is a key of the new population, and
    every key of the new population is either the key of a member of a
    surviving species or an identifier issued during the call; so, if the
    members' keys were below the indexer before the call, all keys of the
    new population are below it afterwards. *)
Theorem new_population_keys self fuel pop_size (t : st) p t' :
  reproduce self fuel pop_size t = Ok p t' →
  genome_indexer t ≤ genome_indexer t' ∧
  (∀ k, genome_indexer t ≤ k < genome_indexer t' →
        is_Some (population_lookup p k)) ∧
  (∀ k g, population_lookup p k = Some g →
          k ∈ survivor_keys t ∨ genome_indexer t ≤ k < genome_indexer t') ∧
  ((∀ k, k ∈ survivor_keys t → k < genome_indexer t) →
   ∀ k g, population_lookup p k = Some g → k < genome_indexer t').
Proof.
  intros Hok.
  assert (genome_indexer t ≤ genome_indexer t' ∧
          (∀ k, genome_indexer t ≤ k < genome_indexer t' →
                is_Some (population_lookup p k)) ∧
          (∀ k g, population_lookup p k = Some g →
                  k ∈ survivor_keys t ∨ genome_indexer t ≤ k < genome_indexer t'))
    as (Hle & Hkids & Hkeys).
  { destruct (ends_ok _ _ _ _ _ _
                (reproduce_ends (λ _ _, True) kept_trivially self fuel pop_size t) Hok)
      as (Hmem & [(Hsv & -> & ->)|(Hsv & spawns & d & Hplan & -> & Hgen)]).
    - simpl. split; [lia|]. split; [intros k Hk; lia|done].
    - destruct Hgen as (Hgi & _ & _ & _ & Hdom & Hin & _). simpl in Hgi.
      split; [lia|]. split.
      + intros k Hk. simpl. apply elem_of_dom. by apply Hin.
      + intros k g Hk. simpl in Hk. apply elem_of_dom_2 in Hk.
        apply Hdom in Hk as [(item & w & Hitem & _ & Hk)|Hk]; [left|by right].
        apply elite_items_keys in Hk. apply elem_of_zip_survivors in Hitem.
        apply elem_of_survivor_keys. eauto. }
  split; [done|]. split; [done|]. split; [done|].
  intros Hlt k g Hk. apply Hkeys in Hk as [Hk|Hk]; [|lia].
  apply Hlt in Hk. lia.
Qed.

(** X3: when [reproduce] returns, the [ancestors] entries of the
    identifiers issued before the call are as they were, and every
    identifier issued during the call has an entry of exactly two parent
    keys, both keys of members of one and the same surviving species. *)
Theorem children_have_parents_of_one_species self fuel pop_size (t : st) p t' :
  reproduce self fuel pop_size t = Ok p t' →
  (∀ k, k < genome_indexer t → ancestors t' !! k = ancestors t !! k) ∧
  (∀ k, genome_indexer t ≤ k < genome_indexer t' →
     ∃ sid s p1 p2,
       (sid, s) ∈ surviving (feed_of t) ∧
       ancestors t' !! k = Some [p1; p2] ∧
       p1 ∈ (members s).*1 ∧ p2 ∈ (members s).*1).
Proof.
  intros Hok.
  destruct (ends_ok _ _ _ _ _ _
              (reproduce_ends (λ _ _, True) kept_trivially self fuel pop_size t) Hok)
    as (Hmem & [(Hsv & -> & ->)|(Hsv & spawns & d & Hplan & -> & Hgen)]).
  - simpl. split; [done|]. intros k Hk. lia.
  - destruct Hgen as (_ & _ & _ & _ & _ & _ & _ & Hold & Hnew).
    split; [exact Hold|]. intros k Hk.
    destruct (Hnew k Hk) as (item & w & p1 & p2 & Hitem & _ & Hanc & Hp1 & Hp2).
    apply elem_of_zip_survivors in Hitem.
    apply breeding_keys_members in Hp1, Hp2.
    exists item.2.1.1, item.2.1.2, p1, p2. done.
Qed.

(** X4: when [reproduce] returns a dict, the species dict it leaves holds
    exactly the surviving species whose normalized spawn amount, raised to
    elitism, is positive, each with its members emptied: stagnant species
    and species allotted nothing are dropped. With a positive elitism every
    surviving species stays. *)
Theorem species_dict_rebuilt self fuel pop_size (t : st) d t' :
  reproduce self fuel pop_size t = Ok (PopDict d) t' →
  ∃ spawns,
    spawn_plan pop_size (survivors t) spawns ∧
    (∀ sid s', species t' !! sid = Some s' ↔
       s' = Build_Species [] ∧
       ∃ spawn s x, (spawn, (sid, s, x)) ∈ zip spawns (survivors t) ∧
                    0 < Z.max spawn (elitism self)) ∧
    (0 < elitism self →
     ∀ sid s, (sid, s) ∈ surviving (feed_of t) →
              species t' !! sid = Some (Build_Species [])).
Proof.
  intros Hok.
  destruct (ends_ok _ _ _ _ _ _
              (reproduce_ends (λ _ _, True) kept_trivially self fuel pop_size t) Hok)
    as (Hmem & [(Hsv & Hp & _)|(Hsv & spawns & d' & Hplan & Hp & Hgen)]);
    [done|].
  exists spawns. split; [done|].
  destruct Hgen as (_ & Hsp & _). simpl in Hsp. rewrite Hsp.
  assert (∀ sid s', rebuilt self ∅ (zip spawns (survivors t)) !! sid = Some s' ↔
            s' = Build_Species [] ∧
            ∃ spawn s x, (spawn, (sid, s, x)) ∈ zip spawns (survivors t) ∧
                         0 < Z.max spawn (elitism self)) as Hiff.
  { intros sid s'. split.
    - intros Hs.
      apply rebuilt_inv in Hs as [Hs|(-> & [z [[sid0 s] x]] & Hitem & Hret & <-)];
        [by rewrite lookup_empty in Hs|].
      split; [done|]. exists z, s, x. split; [done|].
      unfold retained, allotted in Hret. simpl in Hret. by apply Z.ltb_lt in Hret.
    - intros (-> & z & s & x & Hitem & Hpos). apply rebuilt_lookup. right.
      exists (z, (sid, s, x)). split; [done|]. split; [|done].
      unfold retained, allotted. simpl. by apply Z.ltb_lt. }
  split; [exact Hiff|].
  intros Hel sid s Hin. apply Hiff. split; [done|].
  assert (length spawns = length (survivors t)) as Hlen.
  { apply Forall2_length in Hplan. by rewrite Hplan, length_map. }
  destruct (elem_of_zip_right spawns (survivors t)
              (sid, s, adjusted (world (fed t)) s) Hlen) as [z Hz].
  { unfold survivors, scored. apply list_elem_of_fmap. by exists (sid, s). }
  exists z, s, (adjusted (world (fed t)) s). split; [done|]. lia.
Qed.

(** X5: with an elitism that is not positive no genome is carried over:
    the keys of the dict [reproduce] returns are exactly the identifiers
    issued during the call, one genome for each. *)
Theorem without_elitism_all_are_children self fuel pop_size (t : st) d t' :
  elitism self ≤ 0 →
  reproduce self fuel pop_size t = Ok (PopDict d) t' →
  (∀ k, k ∈ dom d ↔ genome_indexer t ≤ k < genome_indexer t') ∧
  Z.of_nat (size d) = genome_indexer t' - genome_indexer t.
Proof.
  intros Hel Hok.
  destruct (ends_ok _ _ _ _ _ _
              (reproduce_ends (λ _ _, True) kept_trivially self fuel pop_size t) Hok)
    as (Hmem & [(Hsv & Hp & _)|(Hsv & spawns & d' & Hplan & Hp & Hgen)]);
    [done|].
  injection Hp as <-.
  destruct Hgen as (Hgi & _ & _ & _ & Hdom & Hin & Hsize & _). simpl in *.
  split; [|rewrite Hsize by done; lia].
  intros k. split; [|by apply Hin].
  intros Hk. apply Hdom in Hk as [(item & w & _ & _ & Hk)|Hk]; [|done].
  rewrite elite_items_none in Hk by done. by apply elem_of_nil in Hk.
Qed.

(** X6: when [reproduce] returns, the reporters have received, after what
    they had, one [species_stagnant] for each stagnant species in the order
    of the stagnation feed and then, unless no species is left, the average
    adjusted fitness, the normalized spawn amounts and the adjusted fitness
    of the surviving species, in this order and nothing else. *)
Theorem reproduce_reports self fuel pop_size (t : st) p t' :
  reproduce self fuel pop_size t = Ok p t' →
  ∃ info,
    reporters t' = reporters t ++ stagnant_reports (feed_of t) ++ info ∧
    match p with
    | PopList _ => info = []
    | PopDict _ =>
        ∃ spawns,
          spawn_plan pop_size (survivors t) spawns ∧
          info = [info_avg_adjusted_fitness (average (survivors t));
                  info_spawn_amounts spawns;
                  info_species_fitness (map snd (survivors t))]
    end.
Proof.
  intros Hok.
  destruct (ends_ok _ _ _ _ _ _
              (reproduce_ends (λ _ _, True) kept_trivially self fuel pop_size t) Hok)
    as (Hmem & [(Hsv & -> & ->)|(Hsv & spawns & d & Hplan & -> & Hgen)]).
  - exists []. simpl. by rewrite app_nil_r.
  - destruct Hgen as (_ & _ & Hrep & _). eexists. split; [|by exists spawns].
    rewrite Hrep. simpl. by rewrite <- app_assoc.
Qed.

(** X7: [reproduce] itself raises nothing but ZeroDivisionError, for a
    surviving species without members or a total spawn amount of zero, and
    what [round] and [math.ceil] raise on the float they are given: no
    exception comes from [random.choice], whose pool is never empty. *)
Theorem reproduce_exceptions self fuel pop_size (t : st) e t' :
  reproduce self fuel pop_size t = Raise e t' →
  (e = ZeroDivisionError ∧
   ((∃ sid s, (sid, s) ∈ surviving (feed_of t) ∧ members s = []) ∨
    fzero (py_sum (map (raw_spawn (average (survivors t))) (survivors t)))
    = true)) ∨
  (∃ x, py_round x = inl e) ∨ (∃ x, py_ceil x = inl e).
Proof.
  intros Hraise.
  destruct (ends_raised _ _ _ _ _ _
              (reproduce_ends (λ _ _, True) kept_trivially self fuel pop_size t)
              Hraise)
    as [[-> [Hex|(_ & _ & Hz)]]|Hother]; [left|left|right]; auto.
Qed.

(** X9: for a genome class that keeps the heap discipline, a call that
    returns has changed no genome that existed before it: crossover makes
    new objects and only they are mutated. *)
Theorem existing_genomes_untouched (allocated : W → G → Prop)
    self fuel pop_size (t : st) p t' :
  heap_discipline allocated →
  reproduce self fuel pop_size t = Ok p t' →
  ∀ g, allocated (world t) g →
       allocated (world t') g ∧ deref (world t') g = deref (world t) g.
Proof.
  intros Hheap Hok.
  pose proof (preserved_kept allocated Hheap) as HR.
  pose proof (stagnation_frame allocated Hheap (species t) (world t)) as Hfed.
  change (preserved allocated (world t) (world t')).
  destruct (ends_ok _ _ _ _ _ _
              (reproduce_ends (preserved allocated) HR self fuel pop_size t) Hok)
    as (Hmem & [(Hsv & -> & ->)|(Hsv & spawns & d & Hplan & -> & Hgen)]).
  - exact Hfed.
  - destruct Hgen as (_ & _ & _ & Hw & _).
    exact (kept_trans _ HR _ _ _ Hfed Hw).
Qed.


(** The genomes of a new population: each species its allotted amount. *)
Lemma total_allotted self (items : list (Z * (Z * Species G * F))) :
  Z.of_nat (total_elites self items + total_offspring self items)
  = Zsum (map (λ z, Z.max (allotted self z) 0) (map fst items)).
Proof.
  unfold total_elites, total_offspring.
  induction items as [|item items IH]; [done|].
  pose proof (contribution self item) as Hc.
  change (Zsum (map (λ z, Z.max (allotted self z) 0) (map fst (item :: items))))
    with (Z.max (allotted self item.1) 0
          + Zsum (map (λ z, Z.max (allotted self z) 0) (map fst items))).
  simpl sum_list_with. lia.
Qed.

End observations.

(** ** Calls on populations whose keys the indexer issued *)

Section keyed.
Context {F G Obj W : Type} `{PyFloat F} `{Collaborators F G Obj W}.

Abbreviation st := (state F G W).

Variable R : W → W → Prop.
Hypothesis HR : kept_by_breeding R.

(** One species whose members have distinct keys, all issued before and none
    in the new population yet: its elites go in under their own keys and
    its children under the identifiers issued meanwhile. *)
Lemma reproduce_species_keyed self fuel (d : gmap Z G)
    (item : Z * (Z * Species G * F)) (t : st) :
  NoDup (members item.2.1.2).*1 →
  (∀ k, k ∈ (members item.2.1.2).*1 → k < genome_indexer t ∧ k ∉ dom d) →
  (∀ k, k ∈ dom d → k < genome_indexer t) →
  ends (reproduce_species self fuel d item) t (λ d' t',
    genome_indexer t'
    = genome_indexer t + Z.of_nat (offspring_count self item) ∧
    species t'
    = (if retained self item.1
       then <[item.2.1.1 := Build_Species []]> (species t) else species t) ∧
    reporters t' = reporters t ∧
    R (world t) (world t') ∧
    (∀ k, k < genome_indexer t →
          d' !! k = insert_items d (elite_items self (world t) item) !! k) ∧
    (∀ k, k ∈ dom d' ↔
          k ∈ dom d ∨ k ∈ (elite_items self (world t) item).*1 ∨
          genome_indexer t ≤ k < genome_indexer t') ∧
    size d' = (size d + elite_count self item + offspring_count self item)%nat)
    (λ _, True).
Proof.
  destruct item as [spawn0 [[sid s] sfitness]]. simpl.
  intros Hnd Hkeys Hd.
  pose proof (elite_items_length self (world t) (spawn0, (sid, s, sfitness))) as Hlen.
  pose proof (elite_count_le self (spawn0, (sid, s, sfitness))) as Hle.
  pose proof (elite_items_NoDup self (world t) (spawn0, (sid, s, sfitness)) Hnd) as Hnde.
  pose proof (elite_items_keys self (world t) (spawn0, (sid, s, sfitness))) as Hsub.
  unfold offspring_count in *. unfold elite_items in *. simpl in *.
  unfold reproduce_species. fold (allotted self spawn0).
  unfold retained in *. destruct (Z.ltb_spec 0 (allotted self spawn0)) as [Hpos|Hneg].
  2:{ destruct (Z.leb_spec (allotted self spawn0) 0); [|lia].
      apply ends_ret. rewrite Z.add_0_r, !Nat.add_0_r.
      repeat split; auto; try apply HR.
      - intros [?|[Hk|?]]; [done| |lia]. by apply elem_of_nil in Hk.
      - rewrite <- Hlen. simpl. lia. }
  destruct (Z.leb_spec (allotted self spawn0) 0); [lia|].
  specialize (Hle eq_refl).
  apply ends_bind, returns_ends, returns_modify. apply ends_bind. unfold ends at 1.
  simpl. rewrite transfer_elites_eq.
  change (sort_desc (λ x : Z * G, fitness (deref (world t) x.2)) (members s))
    with (ranked (world t) s).
  set (el := elites self (ranked (world t) s)) in *.
  assert (∀ k, k ∈ dom (insert_items d el) → k < genome_indexer t) as Hd1.
  { intros k. rewrite insert_items_dom. intros [Hk|Hk]; [by apply Hd|].
    by apply Hkeys, Hsub. }
  assert (size (insert_items d el) = (size d + length el)%nat) as Hsize1.
  { apply insert_items_size; [done|]. intros k Hk. by apply Hkeys, Hsub. }
  rewrite Hlen in *.
  set (n := elite_count self (spawn0, (sid, s, sfitness))) in *.
  destruct (Z.leb_spec (allotted self spawn0 - Z.of_nat n) 0) as [Hzero|Hmore].
  { apply ends_ret. simpl.
    replace (Z.to_nat (allotted self spawn0 - Z.of_nat n)) with 0%nat by lia.
    rewrite Z.add_0_r, Nat.add_0_r. repeat split; auto; try apply HR.
    - intros Hk. apply insert_items_dom in Hk. tauto.
    - intros [Hk|[Hk|Hk]]; [| |lia]; apply insert_items_dom; tauto. }
  apply ends_bind, ends_lift_exn; [|done]. intros pool Hpool.
  eapply ends_mono; [by apply (breed_ends R HR pool (λ _, True) fuel)| |done].
  simpl. intros d' t' (Hgi & Hsp & Hrep & HRw & Hold & Hdom & Hsize & _).
  simpl in *. specialize (Hsize Hd1).
  replace (Z.max (allotted self spawn0 - Z.of_nat n) 0)
    with (allotted self spawn0 - Z.of_nat n) in * by lia.
  split; [lia|]. split; [done|]. split; [done|]. split; [done|].
  split; [done|]. split.
  - intros k. rewrite Hdom, insert_items_dom. rewrite Hgi.
    replace (Z.of_nat (Z.to_nat (allotted self spawn0 - Z.of_nat n)))
      with (allotted self spawn0 - Z.of_nat n) by lia. tauto.
  - rewrite Hsize, Hsize1. lia.
Qed.

Lemma species_loop_keyed self fuel (items : list (Z * (Z * Species G * F)))
    (t : st) :
  NoDup (member_keys items) →
  (∀ k, k ∈ member_keys items → k < genome_indexer t) →
  ends (for_each items ∅ (reproduce_species self fuel)) t
       (generation R self items t) (λ _, True).
Proof.
  intros Hnd Hlt.
  pose (I := λ (pre rest : list (Z * (Z * Species G * F))) (d : gmap Z G) (t' : st),
          pre ++ rest = items ∧ generation R self pre t d t').
  cut (ends (for_each items ∅ (reproduce_species self fuel)) t
            (I ([] ++ items) []) (λ _, True)).
  { intros Hret. eapply ends_mono; [exact Hret| |done]. by intros d t' [_ Hgen]. }
  apply ends_for_each_split.
  { split; [done|]. unfold generation, total_offspring, total_elites. simpl.
    rewrite Z.add_0_r, map_size_empty. repeat split; auto; try apply HR.
    - intros k. rewrite dom_empty. intros Hk. by apply elem_of_empty in Hk.
    - intros item Hitem. by apply elem_of_nil in Hitem. }
  intros pre x rest d t1 [Hitems Hgen]. subst I. cbv beta.
  destruct Hgen as (Hgi & Hsize & Hsp & Hrep & HRw & Hdom & Hel).
  assert (x ∈ items) as Hx.
  { rewrite <- Hitems. apply elem_of_app. right. left. }
  rewrite <- Hitems, member_keys_app, member_keys_cons in Hnd.
  apply NoDup_app in Hnd as (_ & Hpre & Hnd).
  apply NoDup_app in Hnd as (Hndx & _ & _).
  assert (∀ k, k ∈ (members x.2.1.2).*1 → k < genome_indexer t) as Hxlt.
  { intros k Hk. apply Hlt, elem_of_member_keys. eauto. }
  assert (∀ k, k ∈ (members x.2.1.2).*1 → k ∉ dom d) as Hxfresh.
  { intros k Hk Hd. apply Hdom in Hd as [Hd|Hd].
    - apply (Hpre k Hd). apply elem_of_app. by left.
    - apply Hxlt in Hk. lia. }
  eapply ends_mono; [| |done].
  { apply (reproduce_species_keyed self fuel d x t1).
    - done.
    - intros k Hk. split; [|by apply Hxfresh]. apply Hxlt in Hk. lia.
    - intros k Hk. apply Hdom in Hk as [Hk|Hk]; [|lia].
      assert (k < genome_indexer t); [|lia].
      apply Hlt. rewrite <- Hitems, member_keys_app. apply elem_of_app. by left. }
  simpl. intros d' t' (Hgi' & Hsp' & Hrep' & HRw' & Hold & Hdom' & Hsize').
  split; [by rewrite <- app_assoc|].
  unfold generation, total_offspring, total_elites.
  rewrite !sum_list_with_app. simpl.
  fold (total_offspring self pre) (total_elites self pre).
  split; [lia|]. split; [lia|]. split; [by rewrite rebuilt_snoc, Hsp', Hsp|].
  split; [congruence|]. split; [by eapply (kept_trans R HR)|]. split.
  - intros k Hk. rewrite member_keys_app, elem_of_app.
    apply Hdom' in Hk as [Hk|[Hk|Hk]].
    + apply Hdom in Hk as [Hk|Hk]; [by left; left|right; lia].
    + left. right. apply elem_of_member_keys. exists x.
      split; [left|]. by eapply elite_items_keys.
    + right. lia.
  - intros item Hitem. apply elem_of_app in Hitem as [Hitem|Hitem].
    + destruct (Hel item Hitem) as (w & HRw0 & Hw). exists w. split; [done|].
      intros i m Him. specialize (Hw i m Him).
      assert (i ∈ (members item.2.1.2).*1) as Hi.
      { apply (elite_items_keys self w). apply list_elem_of_fmap. by exists (i, m). }
      assert (i ∈ member_keys pre) as Hipre by (apply elem_of_member_keys; eauto).
      rewrite Hold.
      * rewrite insert_items_other; [done|]. intros Hix.
        apply elite_items_keys in Hix. apply (Hpre i Hipre).
        apply elem_of_app. by left.
      * assert (i < genome_indexer t); [|lia]. apply Hlt.
        rewrite <- Hitems, member_keys_app. apply elem_of_app. by left.
    + apply list_elem_of_singleton in Hitem as ->.
      exists (world t1). split; [done|]. intros i m Him.
      rewrite Hold.
      * apply insert_items_lookup; [|done]. by apply elite_items_NoDup.
      * assert (i < genome_indexer t); [|lia]. apply Hxlt.
        apply (elite_items_keys self (world t1)).
        apply list_elem_of_fmap. by exists (i, m).
Qed.

(** A whole call on such a population: the generation it returns, and what
    makes it raise. *)
Lemma reproduce_generation self fuel pop_size (t : st) :
  NoDup (survivor_keys t) →
  (∀ k, k ∈ survivor_keys t → k < genome_indexer t) →
  ends (reproduce self fuel pop_size) t
    (λ p t',
       (∀ sid s, (sid, s) ∈ surviving (feed_of t) → members s ≠ []) ∧
       ((surviving (feed_of t) = [] ∧ p = PopList [] ∧
         t' = set_species ∅ (add_reports (stagnant_reports (feed_of t)) (fed t))) ∨
        (surviving (feed_of t) ≠ [] ∧
         fzero (py_sum (raw_spawns t)) = false ∧
         ∃ spawns d,
           spawn_plan pop_size (survivors t) spawns ∧ p = PopDict d ∧
           generation R self (zip spawns (survivors t)) (planned t spawns) d t')))
    (failure_cause self pop_size t).
Proof.
  intros Hnd Hlt.
  pose (Eceil := λ e : exn,
          ∃ sid s, (sid, s) ∈ surviving (feed_of t) ∧
                   py_ceil (fmul (survival_threshold self)
                                 (of_int (Z.of_nat (length (members s))))) = inl e).
  eapply ends_mono.
  - apply (reproduce_frame self fuel pop_size t
             (λ spawns, generation R self (zip spawns (survivors t))
                                   (planned t spawns))
             (λ _, Eceil)).
    intros spawns Hsv Hmem Hplan.
    assert (length spawns = length (surviving (feed_of t))) as Hlen.
    { apply Forall2_length in Hplan. rewrite Hplan, length_map.
      unfold survivors, scored. by rewrite length_map. }
    eapply ends_mono.
    + apply ends_and.
      * apply (species_loop_keyed self fuel (zip spawns (survivors t))
                 (planned t spawns)).
        -- unfold survivors. by rewrite member_keys_zip.
        -- intros k. unfold survivors. rewrite member_keys_zip by done. apply Hlt.
      * apply (species_loop_ends R HR Eceil self fuel (zip spawns (survivors t))
                 (planned t spawns)).
        -- apply Forall_forall. intros item Hin Hnil.
           apply elem_of_zip_survivors in Hin. by destruct (Hmem _ _ Hin).
        -- apply Forall_forall. intros item Hin e He.
           apply elem_of_zip_survivors in Hin.
           exists item.2.1.1, item.2.1.2. done.
    + by intros d t' [Hgen _].
    + by intros e [_ He].
  - done.
  - intros e [[-> Hex]|(Hsv & Hmem & [[-> Hz]|[Hr|(spawns & _ & Hc)]])].
    + by left.
    + right. by left.
    + right. right. by left.
    + right. right. by right.
Qed.

End keyed.

Section budget.
Context {F G Obj W : Type} `{PyFloat F} `{Collaborators F G Obj W}.

Abbreviation st := (state F G W).


Variable R : W → W → Prop.
Hypothesis HR : kept_by_breeding R.


End budget.

(** ** Sorting values that compare as an order does *)

Section sorting_on.
Context {A F : Type} `{PyFloat F}.




End sorting_on.

(** ** The claims about the spawn amounts, the population and the elites *)

Lemma ends_anyhow {S A} (m : M S A) (s : S) :
  ends m s (λ _ _, True) (λ _, True).
Proof. unfold ends. by destruct (m s). Qed.

Section float_claims.
Context {F G Obj W : Type} `{PyFloat F} `{Collaborators F G Obj W}.

Abbreviation st := (state F G W).

Lemma survivors_length (t : st) :
  length (survivors t) = length (surviving (feed_of t)).
Proof. unfold survivors, scored. apply length_map. Qed.

Lemma survivors_members (t : st) :
  (∀ sid s, (sid, s) ∈ surviving (feed_of t) → members s ≠ []) ∨
  (∃ sid s, (sid, s) ∈ surviving (feed_of t) ∧ members s = []).
Proof.
  destruct (decide (Forall (λ x : Z * Species G, members x.2 ≠ [])
                           (surviving (feed_of t)))) as [Hall|Hex].
  - left. intros sid s Hin. by apply (proj1 (Forall_forall _ _) Hall (sid, s)).
  - right. apply not_Forall_Exists in Hex; [|apply _].
    apply Exists_exists in Hex as ([sid s] & Hin & Hnil). simpl in Hnil.
    exists sid, s. split; [done|]. destruct (members s); [done|].
    by destruct Hnil.
Qed.

(** C1 (as amended): a total spawn amount of zero is not recovered from.
    With at least one surviving species, a call that finds the total of the
    spawn amounts of lines 73-80 zero returns no population and reports no
    such condition: it raises ZeroDivisionError and leaves the species dict
    as it was, at line 60 when a surviving species has no members, with only
    the stagnant species reported by then, and otherwise at the division of
    line 85, after the report of the average adjusted fitness. A call that
    returns found the total different from zero, and returns a dict. *)
Theorem zero_total_spawn_raises self fuel pop_size (t : st) :
  surviving (feed_of t) ≠ [] →
  (fzero (py_sum (raw_spawns t)) = true →
   ∃ t', reproduce self fuel pop_size t = Raise ZeroDivisionError t' ∧
         species t' = species t ∧
         (((∃ sid s, (sid, s) ∈ surviving (feed_of t) ∧ members s = []) ∧
           ∃ es, Forall (λ e, ∃ s', e = species_stagnant s') es ∧
                 t' = add_reports es (fed t)) ∨
          ((∀ sid s, (sid, s) ∈ surviving (feed_of t) → members s ≠ []) ∧
           t' = add_reports
                  [info_avg_adjusted_fitness (average (survivors t))]
                  (add_reports (stagnant_reports (feed_of t)) (fed t))))) ∧
  (∀ p t', reproduce self fuel pop_size t = Ok p t' →
           fzero (py_sum (raw_spawns t)) = false ∧ ∃ d, p = PopDict d).
Proof.
  intros Hsv. split.
  - intros Hzero. destruct (survivors_members t) as [Hmem|Hex].
    + eexists. split; [|split; [|right; split; [exact Hmem|reflexivity]]];
        [|reflexivity].
      rewrite reproduce_unfold, bind_unfold. unfold fitness_pass.
      rewrite fitness_loop_returns by done. fold (survivors t). cbv beta iota.
      change ([] ++ survivors t) with (survivors t). rewrite Z.add_0_l.
      destruct (Z.eqb_spec (Z.of_nat (length (surviving (feed_of t)))) 0) as [Hz|_].
      { destruct (surviving (feed_of t)); [done|simpl in Hz; lia]. }
      rewrite bind_unfold, div_int_returns.
      2:{ rewrite survivors_length.
          destruct (surviving (feed_of t)); [done|simpl; lia]. }
      fold (average (survivors t)). fold (raw_spawns t).
      rewrite bind_unfold. unfold report at 1, modify at 1.
      rewrite bind_unfold. unfold normalize at 1. rewrite bind_unfold.
      unfold int_div. rewrite Hzero. reflexivity.
    + destruct (fitness_loop_raises (feed_of t) (0, [], lit_0_0) (fed t) Hex)
        as (es & Hes & Hrun).
      eexists. split; [|split; [|left; split; [exact Hex|]]].
      * rewrite reproduce_unfold, bind_unfold. unfold fitness_pass.
        rewrite Hrun. reflexivity.
      * reflexivity.
      * by exists es.
  - intros p t' Hok.
    destruct (ends_ok _ _ _ _ _ _
                (reproduce_frame self fuel pop_size t (λ _ _ _, True)
                   (λ _ _, True) (λ spawns _ _ _, ends_anyhow _ _)) Hok)
      as (_ & [(Hnil & _)|(_ & Hz & spawns & d & _ & -> & _)]); [done|].
    split; [done|]. by exists d.
Qed.

(** C2 (as amended): for every surviving species with N >= 1 members the
    pass over the stagnation feed records as adjusted fitness the value of
    ((...((0.0 + f1 / N) + f2 / N) ...) + fn / N) / N in the arithmetic of
    the code, the members taken in the order of the dict; these are the
    values a call that returns has reported and has normalized the spawn
    amounts from. *)
Theorem adjusted_fitness_is_shared_sum self fuel pop_size (t : st) :
  (∀ sid s, (sid, s) ∈ surviving (feed_of t) → members s ≠ []) →
  ∃ total t1,
    fitness_pass (feed_of t) (fed t)
    = Ok (Z.of_nat (length (surviving (feed_of t))), survivors t, total) t1 ∧
    map fst (survivors t) = surviving (feed_of t) ∧
    (∀ sid s x, (sid, s, x) ∈ survivors t →
       let N := Z.of_nat (length (members s)) in
       1 ≤ N ∧
       x = fquot (foldl (λ acc m,
                           fadd acc (fquot (fitness (deref (world (fed t)) m.2))
                                           (of_int N)))
                        lit_0_0 (members s))
                 (of_int N)) ∧
    (∀ d t', reproduce self fuel pop_size t = Ok (PopDict d) t' →
       ∃ spawns,
         spawn_plan pop_size (survivors t) spawns ∧
         reporters t'
         = reporters t ++ stagnant_reports (feed_of t)
           ++ [info_avg_adjusted_fitness (average (survivors t));
               info_spawn_amounts spawns;
               info_species_fitness (map snd (survivors t))]).
Proof.
  intros Hmem. unfold fitness_pass. rewrite fitness_loop_returns by done.
  fold (survivors t). do 2 eexists. split; [by rewrite Z.add_0_l|].
  split; [|split].
  - unfold survivors, scored. rewrite map_map. simpl. apply map_id.
  - intros sid s x Hin. unfold survivors, scored in Hin.
    apply list_elem_of_fmap in Hin as ([sid' s'] & Heq & Hin).
    simpl in Heq. simplify_eq. cbv zeta. split; [|reflexivity].
    apply Hmem in Hin. destruct (members s'); [done|simpl; lia].
  - intros d t' Hok.
    destruct (ends_ok _ _ _ _ _ _
                (reproduce_ends (λ _ _, True) kept_trivially self fuel pop_size t)
                Hok)
      as (_ & [(_ & Hp & _)|(_ & spawns & d' & Hplan & _ & Hgen)]); [done|].
    exists spawns. split; [done|].
    destruct Hgen as (_ & _ & Hrep & _). rewrite Hrep. simpl.
    by rewrite <- app_assoc.
Qed.



(** X8: whatever [reproduce] raises has one of four causes in the call
    itself: ZeroDivisionError for a surviving species without members,
    ZeroDivisionError for a total spawn amount of zero, the exception of
    [round] on the normalized spawn amount of a species, or the exception of
    [math.ceil] on survival_threshold times the size of a surviving
    species. *)
Theorem reproduce_exception_causes self fuel pop_size (t : st) e t' :
  reproduce self fuel pop_size t = Raise e t' →
  failure_cause self pop_size t e.
Proof.
  intros Hraise.
  apply (ends_raised (reproduce self fuel pop_size) t (λ _ _, True)
           (failure_cause self pop_size t) e t'); [|exact Hraise].
  pose (Eceil := λ e' : exn,
          ∃ sid s, (sid, s) ∈ surviving (feed_of t) ∧
                   py_ceil (fmul (survival_threshold self)
                                 (of_int (Z.of_nat (length (members s))))) = inl e').
  eapply ends_mono.
  - apply (reproduce_frame self fuel pop_size t (λ _ _ _, True) (λ _, Eceil)).
    intros spawns Hsv Hmem Hplan.
    eapply ends_mono.
    + apply (species_loop_ends (λ _ _, True) kept_trivially Eceil self fuel
               (zip spawns (survivors t)) (planned t spawns)).
      * apply Forall_forall. intros item Hin Hnil.
        apply elem_of_zip_survivors in Hin. by destruct (Hmem _ _ Hin).
      * apply Forall_forall. intros item Hin e' He.
        apply elem_of_zip_survivors in Hin.
        exists item.2.1.1, item.2.1.2. done.
    + done.
    + done.
  - done.
  - intros e' [[-> Hex]|(Hsv & Hmem & [[-> Hz]|[Hr|(spawns & _ & Hc)]])].
    + by left.
    + right. by left.
    + right. right. by left.
    + right. right. by right.
Qed.

(** X11: when [reproduce] returns a dict for a population whose member
    keys are distinct and were issued by the indexer before, its size is
    exactly the sum, over the surviving species, of [max(spawn, elitism)]
    where that is positive, [spawn] being the normalized and rounded spawn
    amount the call computed for the species. *)
Theorem population_size_is_allotted_total self fuel pop_size (t : st) d t' :
  NoDup (survivor_keys t) →
  (∀ k, k ∈ survivor_keys t → k < genome_indexer t) →
  reproduce self fuel pop_size t = Ok (PopDict d) t' →
  ∃ spawns,
    spawn_plan pop_size (survivors t) spawns ∧
    Z.of_nat (size d)
    = Zsum (map (λ spawn, Z.max (Z.max spawn (elitism self)) 0) spawns).
Proof.
  intros Hnd Hlt Hok.
  destruct (ends_ok _ _ _ _ _ _
              (reproduce_generation (λ _ _, True) kept_trivially self fuel
                 pop_size t Hnd Hlt) Hok)
    as (_ & [(_ & Hp & _)|(_ & _ & spawns & d' & Hplan & Hp & Hgen)]); [done|].
  injection Hp as <-. exists spawns. split; [done|].
  destruct Hgen as (_ & Hsize & _).
  assert (length spawns = length (survivors t)) as Hspawns.
  { apply Forall2_length in Hplan. by rewrite Hplan, length_map. }
  destruct (zip_fst_length spawns (survivors t) Hspawns) as [Hfst _].
  rewrite Hsize, total_allotted, Hfst. reflexivity.
Qed.

End float_claims.

(** * The methods at work *)

Section examples.
Import Lab.

Lemma reproduce_all_stagnant_witness :
  ∃ t', Lab.reproduce_in (F:=Q) all_stagnant first_choice
          (Build_DefaultReproduction 1 (1 # 2)%Q) 10 3 (Lab.setup [[7]; [3; 4]])
        = Ok (PopList []) t' ∧
        species t' = ∅ ∧ genome_indexer t' = 4.
Proof.
  eexists. split.
  - apply (reproduce_all_stagnant (H0 := Lab.collaborators all_stagnant first_choice)).
    vm_compute. repeat constructor.
  - split; reflexivity.
Defined.

Lemma reproduce_empty_species_witness :
  ∃ es t', Lab.reproduce_in (F:=Q) none_stagnant first_choice
             (Build_DefaultReproduction 1 (1 # 2)%Q) 10 6 (Lab.setup [[]])
           = Raise ZeroDivisionError t' ∧
           reporters t' = es ∧
           Forall (λ e, ∃ s', e = species_stagnant s') es.
Proof.
  destruct (reproduce_empty_species (H0 := Lab.collaborators none_stagnant first_choice)
              (Build_DefaultReproduction 1 (1 # 2)%Q) 10 6
              (Lab.setup (F:=Q) [[]]) 1 (Build_Species []))
    as (es & Hes & Hrun).
  - vm_compute. left.
  - reflexivity.
  - exists es. eexists. split; [exact Hrun|]. split; [reflexivity|exact Hes].
Defined.

Lemma breeding_pool_size_witness :
  ∃ pool, breeding_pool (F:=Q) (Build_DefaultReproduction 1 (1 # 5)%Q)
                        [(1, 0%nat); (2, 1%nat); (3, 2%nat)] = inr pool ∧
          length pool = 2%nat.
Proof.
  destruct (breeding_pool_size (F:=Q) (Build_DefaultReproduction 1 (1 # 5)%Q)
              [(1, 0%nat); (2, 1%nat); (3, 2%nat)] 1)
    as (pool & Hpool & _ & Hlen & _).
  - reflexivity.
  - exists pool. split; [exact Hpool|exact Hlen].
Defined.

(** C8, as stated, fails: a negative elitism and a survival threshold of 2
    are accepted by [__init__], and both [create_new] and [reproduce] run
    with the object it makes. *)
Lemma init_without_validation :
  ∃ self t1,
    init (Build_params (Some (-1)) (Some 2%Q)) (Lab.setup (F:=Q) [])
    = Ok self t1 ∧
    elitism self = -1 ∧ survival_threshold self = 2%Q ∧
    (∃ d t2, Lab.create_new_in 3 t1 = Ok d t2 ∧ size d = 3%nat) ∧
    (∃ p t2, Lab.reproduce_in none_stagnant first_choice self 10 6
               (Lab.setup [[10; 20; 30]; [5; 5]]) = Ok p t2 ∧
             population_size p = 6%nat).
Proof.
  do 2 eexists. split; [reflexivity|]. split; [reflexivity|].
  split; [reflexivity|]. split.
  - do 2 eexists. split; [vm_compute; reflexivity|]. vm_compute. reflexivity.
  - do 2 eexists. split; [vm_compute; reflexivity|]. vm_compute. reflexivity.
Qed.

(** C6, as stated, fails: a species with a single member proceeds to
    breeding with a pool of one candidate, and both parents of each of its
    children are that member. *)
Lemma single_member_breeding_pool :
  breeding_pool (F:=Q) (Build_DefaultReproduction 0 (1 # 2)%Q) [(1, 0%nat)]
  = inr [(1, 0%nat)] ∧
  ∃ p t', Lab.reproduce_in none_stagnant first_choice
            (Build_DefaultReproduction 0 (1 # 2)%Q) 10 3 (Lab.setup [[7]])
          = Ok p t' ∧
          population_size p = 3%nat ∧
          ancestors t' !! 2 = Some [1; 1] ∧
          ancestors t' !! 3 = Some [1; 1] ∧
          ancestors t' !! 4 = Some [1; 1].
Proof.
  split; [reflexivity|]. do 2 eexists.
  split; [vm_compute; reflexivity|]. repeat split; vm_compute; reflexivity.
Qed.

(** C1, as stated, fails: with one surviving species and no member in it the
    total raw spawn amount is zero, and the call raises ZeroDivisionError
    instead of returning an empty population, in exact arithmetic and in
    binary64 alike. *)
Lemma zero_total_spawn_not_recovered :
  (py_sum (map (raw_spawn 0%Q)
               (survivors (H0 := Lab.collaborators none_stagnant first_choice)
                          (Lab.setup (F:=Q) [[]]))) == 0)%Q ∧
  (∃ t', Lab.reproduce_in (F:=Q) none_stagnant first_choice
           (Build_DefaultReproduction 1 (1 # 2)%Q) 10 6 (Lab.setup [[]])
         = Raise ZeroDivisionError t') ∧
  (∃ t', Lab.reproduce_in (F:=float) none_stagnant first_choice
           (Build_DefaultReproduction 1 0.5%float) 10 6 (Lab.setup [[]])
         = Raise ZeroDivisionError t') ∧
  ¬ (∃ p t', Lab.reproduce_in (F:=Q) none_stagnant first_choice
               (Build_DefaultReproduction 1 (1 # 2)%Q) 10 6 (Lab.setup [[]])
             = Ok p t').
Proof.
  split; [vm_compute; reflexivity|].
  split; [eexists; vm_compute; reflexivity|].
  split; [eexists; vm_compute; reflexivity|].
  intros (p & t' & Hrun). vm_compute in Hrun. discriminate Hrun.
Qed.


(** C2, as stated, fails in the arithmetic the code runs: for a species of
    three members with fitness 7, 1 and 1 the pass records, and the call
    reports, the adjusted fitness 1.0000000000000002, the sum of the three
    rounded shares 7/3, 1/3 and 1/3 divided by 3; the mean fitness divided
    by the size is (7 + 1 + 1) / 3 / 3 = 1.0. The difference shows: next to a
    species of one member with fitness 1, adjusted fitness 1.0, it puts the
    first species above the average 1.0, and for a target size of 100 the
    spawn amounts are 79 and 21, where two species at the average get 75
    and 25, as the run in exact arithmetic shows. *)
Lemma adjusted_fitness_not_mean_over_size :
  (∃ s x total t1,
     fitness_pass (H0 := Lab.collaborators none_stagnant first_choice)
       (feed_of (H0 := Lab.collaborators none_stagnant first_choice)
                (Lab.setup (F:=float) [[7; 1; 1]]))
       (fed (H0 := Lab.collaborators none_stagnant first_choice)
            (Lab.setup (F:=float) [[7; 1; 1]]))
     = Ok (1, [(1, s, x)], total) t1 ∧
     map (λ m : Z * nat,
            Lab.g_fitness
              (nth m.2 (Lab.objects (world (Lab.setup (F:=float) [[7; 1; 1]])))
                   (Lab.founder lit_0_0 0)))
         (members s) = [7; 1; 1]%float ∧
     x = 0x1.0000000000001p+0%float ∧
     fquot (F:=float)
       (fquot (fadd (fadd (of_int 7) (of_int 1)) (of_int 1)) (of_int 3))
       (of_int 3) = 1%float ∧
     flt (F:=float) 1%float x = true ∧
     ∃ p t', Lab.reproduce_in (F:=float) none_stagnant first_choice
               Scenario.binary64 10 6 (Lab.setup [[7; 1; 1]]) = Ok p t' ∧
             info_species_fitness [x] ∈ reporters t') ∧
  (∃ p t', Lab.reproduce_in (F:=float) none_stagnant first_choice
             Scenario.binary64 100 100 (Lab.setup [[7; 1; 1]; [1]]) = Ok p t' ∧
           reporters t'
           = [info_avg_adjusted_fitness 1%float;
              info_spawn_amounts [79; 21];
              info_species_fitness [0x1.0000000000001p+0%float; 1%float]]) ∧
  (∃ p t', Lab.reproduce_in (F:=Q) none_stagnant first_choice
             Scenario.exact 100 100 (Lab.setup [[7; 1; 1]; [1]]) = Ok p t' ∧
           info_spawn_amounts [75; 25] ∈ reporters t').
Proof.
  split; [|split].
  - eexists _, _, _, _. split; [vm_compute; reflexivity|].
    split; [vm_compute; reflexivity|]. split; [vm_compute; reflexivity|].
    split; [vm_compute; reflexivity|]. split; [vm_compute; reflexivity|].
    eexists _, _. split; [vm_compute; reflexivity|].
    vm_compute. do 2 apply list_elem_of_further. apply list_elem_of_here.
  - eexists _, _. split; [vm_compute; reflexivity|]. vm_compute. reflexivity.
  - eexists _, _. split; [vm_compute; reflexivity|].
    vm_compute. apply list_elem_of_further. apply list_elem_of_here.
Qed.


End examples.

(** ** The further properties on concrete runs *)

Section more_examples.
Import Lab.

Lemma new_population_keys_witness :
  ∃ p t',
    Lab.reproduce_in none_stagnant first_choice Scenario.exact 10 6 Scenario.start
    = Ok p t' ∧
    genome_indexer (Scenario.start (F:=Q)) ≤ genome_indexer t' ∧
    ∀ k g, population_lookup p k = Some g → k < genome_indexer t'.
Proof.
  eexists _, _. split; [vm_compute; reflexivity|].
  edestruct (new_population_keys
               (H0 := Lab.collaborators none_stagnant first_choice)
               Scenario.exact 10 6 Scenario.start) as (Hle & _ & _ & Hlt);
    [vm_compute; reflexivity|].
  split; [exact Hle|]. apply Hlt. intros k Hk. vm_compute in Hk.
  repeat (apply elem_of_cons in Hk as [->|Hk]; [done|]).
  by apply elem_of_nil in Hk.
Defined.

Lemma children_have_parents_of_one_species_witness :
  ∃ p t',
    Lab.reproduce_in none_stagnant first_choice Scenario.exact 10 6 Scenario.start
    = Ok p t' ∧
    ∀ k, k < genome_indexer (Scenario.start (F:=Q)) →
         ancestors t' !! k = ancestors (Scenario.start (F:=Q)) !! k.
Proof.
  eexists _, _. split; [vm_compute; reflexivity|].
  edestruct (children_have_parents_of_one_species
               (H0 := Lab.collaborators none_stagnant first_choice)
               Scenario.exact 10 6 Scenario.start) as (Hold & _);
    [vm_compute; reflexivity|].
  exact Hold.
Defined.

Lemma species_dict_rebuilt_witness :
  ∃ d t',
    Lab.reproduce_in none_stagnant first_choice Scenario.exact 10 6 Scenario.start
    = Ok (PopDict d) t' ∧
    species t' !! 1 = Some (Build_Species []).
Proof.
  eexists _, _. split; [vm_compute; reflexivity|].
  edestruct (species_dict_rebuilt
               (H0 := Lab.collaborators none_stagnant first_choice)
               Scenario.exact 10 6 Scenario.start) as (spawns & _ & _ & Hall);
    [vm_compute; reflexivity|].
  apply (Hall eq_refl 1 Scenario.A). vm_compute. left.
Defined.

Lemma without_elitism_all_are_children_witness :
  ∃ d t',
    Lab.reproduce_in none_stagnant first_choice
      (Build_DefaultReproduction 0 (1 # 2)%Q) 10 6 Scenario.start
    = Ok (PopDict d) t' ∧
    Z.of_nat (size d)
    = genome_indexer t' - genome_indexer (Scenario.start (F:=Q)).
Proof.
  eexists _, _. split; [vm_compute; reflexivity|].
  edestruct (without_elitism_all_are_children
               (H0 := Lab.collaborators none_stagnant first_choice)
               (Build_DefaultReproduction 0 (1 # 2)%Q) 10 6 Scenario.start)
    as (_ & Hsize); [|vm_compute; reflexivity|exact Hsize].
  simpl. lia.
Defined.

Lemma reproduce_reports_witness :
  ∃ p t' info,
    Lab.reproduce_in none_stagnant first_choice Scenario.exact 10 6 Scenario.start
    = Ok p t' ∧
    reporters t'
    = reporters (Scenario.start (F:=Q))
      ++ stagnant_reports
           (feed_of (H0 := Lab.collaborators none_stagnant first_choice)
                    (Scenario.start (F:=Q)))
      ++ info.
Proof.
  eexists _, _.
  edestruct (reproduce_reports
               (H0 := Lab.collaborators none_stagnant first_choice)
               Scenario.exact 10 6 Scenario.start) as (info & Hrep & _);
    [vm_compute; reflexivity|].
  exists info. split; [vm_compute; reflexivity|exact Hrep].
Defined.

Lemma reproduce_exceptions_witness :
  ∃ e t',
    Lab.reproduce_in (F:=float) none_stagnant first_choice Scenario.binary64 10 6
      (Lab.setup [[1; 2]; []])
    = Raise e t' ∧
    (e = ZeroDivisionError ∨
     (∃ x : float, py_round x = inl e) ∨ (∃ x : float, py_ceil x = inl e)).
Proof.
  eexists _, _. split; [vm_compute; reflexivity|].
  edestruct (reproduce_exceptions
               (H0 := Lab.collaborators none_stagnant first_choice)
               Scenario.binary64 10 6 (Lab.setup [[1; 2]; []]))
    as [[He _]|Hother]; [vm_compute; reflexivity|by left|by right].
Defined.

Lemma existing_genomes_untouched_witness :
  ∃ p t',
    Lab.reproduce_in none_stagnant first_choice Scenario.exact 10 6 Scenario.start
    = Ok p t' ∧
    nth 0 (Lab.objects (world t')) (Lab.founder 0%Q 0) = Lab.founder 10%Q 1.
Proof.
  assert (∀ p t',
            Lab.reproduce_in none_stagnant first_choice Scenario.exact 10 6
              Scenario.start = Ok p t' →
            nth 0 (Lab.objects (world t')) (Lab.founder 0%Q 0)
            = Lab.founder 10%Q 1) as Hrun.
  { intros p t' Hok.
    destruct (existing_genomes_untouched
                (H0 := Lab.collaborators none_stagnant first_choice)
                (λ (w : Lab.lab_world Q) (g : nat), (g < length (Lab.objects w))%nat)
                Scenario.exact 10 6 Scenario.start p t'
                (lab_heap_discipline _ _) Hok 0%nat) as (_ & Hsame);
      [vm_compute; lia|exact Hsame]. }
  eexists _, _. split; [vm_compute; reflexivity|].
  eapply Hrun. vm_compute. reflexivity.
Defined.


Lemma zero_total_spawn_raises_witness :
  ∃ t',
    Lab.reproduce_in (F:=float) none_stagnant first_choice Scenario.binary64 10 6
      (Lab.setup [[]])
    = Raise ZeroDivisionError t' ∧
    species t' = species (Lab.setup (F:=float) [[]]).
Proof.
  destruct (zero_total_spawn_raises
              (H0 := Lab.collaborators none_stagnant first_choice)
              Scenario.binary64 10 6 (Lab.setup (F:=float) [[]]))
    as [Hzero _].
  - vm_compute. discriminate.
  - destruct Hzero as (t' & Hrun & Hsp & _); [vm_compute; reflexivity|].
    exists t'. split; [exact Hrun|exact Hsp].
Defined.

Lemma adjusted_fitness_is_shared_sum_witness :
  ∃ total t1,
    fitness_pass (H0 := Lab.collaborators none_stagnant first_choice)
      (feed_of (H0 := Lab.collaborators none_stagnant first_choice)
               (Scenario.start (F:=float)))
      (fed (H0 := Lab.collaborators none_stagnant first_choice)
           (Scenario.start (F:=float)))
    = Ok (2, [(1, Scenario.A, 0x1.aaaaaaaaaaaabp+2%float);
              (2, Scenario.B, 2.5%float)], total) t1 ∧
    (∀ sid s x,
       (sid, s, x) ∈ survivors (H0 := Lab.collaborators none_stagnant first_choice)
                               (Scenario.start (F:=float)) →
       let N := Z.of_nat (length (members s)) in
       1 ≤ N ∧
       x = fquot (foldl (λ acc m,
                           fadd acc
                             (fquot (Lab.g_fitness
                                       (nth m.2 (Lab.objects
                                                   (world (Scenario.start (F:=float))))
                                            (Lab.founder lit_0_0 0)))
                                    (of_int N)))
                        lit_0_0 (members s))
                 (of_int N)) ∧
    (∀ d t',
       Lab.reproduce_in none_stagnant first_choice Scenario.binary64 10 6
         Scenario.start = Ok (PopDict d) t' →
       ∃ spawns,
         reporters t'
         = [info_avg_adjusted_fitness 0x1.2555555555556p+2%float;
            info_spawn_amounts spawns;
            info_species_fitness [0x1.aaaaaaaaaaaabp+2%float; 2.5%float]]).
Proof.
  destruct (adjusted_fitness_is_shared_sum
              (H0 := Lab.collaborators none_stagnant first_choice)
              Scenario.binary64 10 6 (Scenario.start (F:=float)))
    as (total & t1 & Hpass & _ & Hvalue & Hrun).
  - intros sid s Hin. vm_compute in Hin.
    repeat (apply elem_of_cons in Hin as [Heq|Hin]; [by simplify_eq|]).
    by apply elem_of_nil in Hin.
  - exists total, t1. split; [exact Hpass|]. split; [exact Hvalue|].
    intros d t' Hok. destruct (Hrun d t' Hok) as (spawns & _ & Hrep).
    exists spawns. exact Hrep.
Defined.




Lemma reproduce_exception_causes_witness :
  ∃ e t',
    Lab.reproduce_in (F:=float) none_stagnant first_choice Scenario.binary64 10 6
      (Lab.setup [[1; 2]; []])
    = Raise e t' ∧
    failure_cause (H0 := Lab.collaborators none_stagnant first_choice)
      Scenario.binary64 6 (Lab.setup (F:=float) [[1; 2]; []]) e.
Proof.
  eexists _, _. split; [vm_compute; reflexivity|].
  eapply (reproduce_exception_causes
            (H0 := Lab.collaborators none_stagnant first_choice)
            Scenario.binary64 10 6 (Lab.setup (F:=float) [[1; 2]; []])).
  vm_compute. reflexivity.
Defined.

Lemma population_size_is_allotted_total_witness :
  ∃ d t' spawns,
    Lab.reproduce_in none_stagnant first_choice Scenario.binary64 10 6
      Scenario.start = Ok (PopDict d) t' ∧
    spawn_plan 6
      (survivors (H0 := Lab.collaborators none_stagnant first_choice)
                 (Scenario.start (F:=float))) spawns ∧
    Z.of_nat (size d)
    = Zsum (map (λ spawn, Z.max (Z.max spawn 1) 0) spawns).
Proof.
  assert (∀ d t',
            Lab.reproduce_in none_stagnant first_choice Scenario.binary64 10 6
              Scenario.start = Ok (PopDict d) t' →
            ∃ spawns,
              spawn_plan 6
                (survivors (H0 := Lab.collaborators none_stagnant first_choice)
                           (Scenario.start (F:=float))) spawns ∧
              Z.of_nat (size d)
              = Zsum (map (λ spawn, Z.max (Z.max spawn 1) 0) spawns)) as Hrun.
  { intros d t'.
    apply (population_size_is_allotted_total
             (H0 := Lab.collaborators none_stagnant first_choice)
             Scenario.binary64 10 6 (Scenario.start (F:=float)) d t').
    - apply (bool_decide_unpack _). by vm_compute.
    - intros k Hk. vm_compute in Hk.
      repeat (apply elem_of_cons in Hk as [->|Hk]; [done|]).
      by apply elem_of_nil in Hk. }
  edestruct Hrun as (spawns & Hplan & Hsize); [vm_compute; reflexivity|].
  eexists _, _, spawns. split; [vm_compute; reflexivity|].
  split; [exact Hplan|exact Hsize].
Defined.

End more_examples.
